(** * PinAI bot ([main.js]): a shallow embedding and its checked properties

    The program is a sequential HTTP client: a credential store
    ([TokenManager]), a point-balance parser ([PointsCalculator]) and the
    account loop of [PinAi].  The embedding keeps the control flow of the
    source, including every [try]/[catch], and threads the outside world
    (token file, network, clock, log) through an explicit state.

    JavaScript numbers that take part in floating-point arithmetic (the
    point balance and the upgrade costs) are IEEE binary64 values
    ([PrimFloat.float]); counters, identifiers, levels, HTTP statuses and
    epoch seconds are integers ([Z]). *)

From Stdlib Require Import ZArith Ascii String DecimalString DecimalPos DecimalZ List Bool Lia.
From Stdlib Require Import PrimFloat SpecFloat FloatOps.
From stdpp Require Import base option list gmap strings.

Set Default Proof Using "Type".
Local Open Scope string_scope.
Local Open Scope Z_scope.

(** ** Thrown values *)

(** What a [throw] carries.  Only the kind of the error matters to the
    program: every handler just logs [error.message]. *)
Inductive error : Type :=
  | TypeError          (* property of undefined, not a function, ... *)
  | SyntaxError        (* JSON.parse *)
  | URIError           (* decodeURIComponent *)
  | InvalidArgument    (* luxon: fromSeconds on a non-number *)
  | IOError            (* fs.readFileSync / fs.writeFileSync *)
  | NetworkError       (* axios rejects the request *)
  | RangeError.        (* an array length that is not a length *)

(** The result of a pure computation that may throw. *)
Inductive result (A : Type) : Type :=
  | Val (a : A)
  | Throw (e : error).
Arguments Val {A} a.
Arguments Throw {A} e.

(** ** String primitives of the JavaScript runtime *)

Module JsString.

Fixpoint drop (n : nat) (s : string) : string :=
  match n, s with
  | O, _ => s
  | S _, EmptyString => EmptyString
  | S k, String _ r => drop k r
  end.

(** [s.includes(sub)] *)
Fixpoint includes (sub s : string) : bool :=
  String.prefix sub s ||
  match s with
  | EmptyString => false
  | String _ r => includes sub r
  end.

(** [s.replace(sub, rep)] with a string pattern: first occurrence only. *)
Fixpoint replace (sub rep s : string) : string :=
  if String.prefix sub s then rep ++ drop (String.length sub) s
  else match s with
       | EmptyString => EmptyString
       | String c r => String c (replace sub rep r)
       end.

(** [s.replace(/[c]/g, "")]: every occurrence of one character. *)
Fixpoint remove_all (c : ascii) (s : string) : string :=
  match s with
  | EmptyString => EmptyString
  | String d r => if Ascii.eqb c d then remove_all c r
                  else String d (remove_all c r)
  end.

(** [s.split(sep)] for a non-empty separator.  [skip] counts the
    characters of a separator just matched that are still to be passed
    over; [cur] is the piece being read, reversed. *)
Fixpoint split_aux (sep : string) (skip : nat) (cur : string) (s : string)
  : list string :=
  match s with
  | EmptyString => [String.rev cur]
  | String c r =>
      match skip with
      | S k => split_aux sep k cur r
      | O =>
          if String.prefix sep s
          then String.rev cur :: split_aux sep (String.length sep - 1) "" r
          else split_aux sep O (String c cur) r
      end
  end.

Definition split (sep s : string) : list string := split_aux sep O "" s.

End JsString.

(** ** Numbers: decimal literals to binary64 *)

Module JsNumber.

Definition is_digit (c : ascii) : bool :=
  let n := nat_of_ascii c in (48 <=? n)%nat && (n <=? 57)%nat.

Definition digit_val (c : ascii) : Z := Z.of_nat (nat_of_ascii c) - 48.

(** Longest prefix of decimal digits, and what follows it. *)
Fixpoint span_digits (s : string) : string * string :=
  match s with
  | String c r =>
      if is_digit c then let '(d, t) := span_digits r in (String c d, t)
      else (EmptyString, s)
  | EmptyString => (EmptyString, EmptyString)
  end.

Fixpoint digits_value (acc : Z) (s : string) : Z :=
  match s with
  | EmptyString => acc
  | String c r => digits_value (10 * acc + digit_val c) r
  end.

(** The binary64 value nearest to [(-1)^neg * m * 10^e] (ties to even):
    the quotient of two exact integers, rounded once. *)
Definition decimal_to_float (neg : bool) (m e : Z) : float :=
  match m with
  | Zpos p =>
      let num := (p * Z.to_pos (10 ^ Z.max e 0))%positive in
      let den := Z.to_pos (10 ^ Z.max (- e) 0) in
      SF2Prim (SFdiv prec emax (S754_finite neg num 0) (S754_finite false den 0))
  | _ => if neg then (-0)%float else 0%float
  end.

Definition is_space (c : ascii) : bool :=
  let n := nat_of_ascii c in
  (n =? 32)%nat || ((9 <=? n)%nat && (n <=? 13)%nat).

Fixpoint skip_spaces (s : string) : string :=
  match s with
  | String c r => if is_space c then skip_spaces r else s
  | EmptyString => EmptyString
  end.

Definition read_sign (s : string) : bool * string :=
  match s with
  | String "-"%char r => (true, r)
  | String "+"%char r => (false, r)
  | _ => (false, s)
  end.

(** Exponent part [e[+-]digits]; an incomplete one is not consumed and
    counts as exponent 0. *)
Definition read_exponent (s : string) : Z :=
  match s with
  | String c r =>
      if Ascii.eqb c "e" || Ascii.eqb c "E" then
        let '(neg, r1) := read_sign r in
        let '(ds, _) := span_digits r1 in
        match ds with
        | EmptyString => 0
        | _ => if neg then - digits_value 0 ds else digits_value 0 ds
        end
      else 0
  | EmptyString => 0
  end.

(** [parseFloat(s)] on a string: leading (ASCII) white space is skipped, the
    longest prefix that is a decimal literal is read, the rest is
    ignored; [NaN] when there is no such prefix. *)
Definition parseFloat (s : string) : float :=
  let '(neg, s1) := read_sign (skip_spaces s) in
  if String.prefix "Infinity" s1 then
    if neg then neg_infinity else infinity
  else
    let '(ip, s2) := span_digits s1 in
    let '(fp, s3) := match s2 with
                     | String "."%char r => span_digits r
                     | _ => (EmptyString, s2)
                     end in
    match ip ++ fp with
    | EmptyString => nan
    | ds => decimal_to_float neg (digits_value 0 ds)
              (read_exponent s3 - Z.of_nat (String.length fp))
    end.

(** [parseFloat(x)] on a number: [x] is first rendered by [ToString],
    which round-trips every value except that it drops the sign of
    zero. *)
Definition parseFloat_number (x : float) : float :=
  if PrimFloat.eqb x 0 then 0%float else x.

End JsNumber.

(** ** [PointsCalculator] *)

(** The [pin_points] field of the home response, as [parsePoints] sees it:
    a number, a string, or something that is neither. *)
Inductive points : Type :=
  | PNum (x : float)
  | PStr (s : string)
  | POther.

Module PointsCalculator.
Import JsString JsNumber.

(** [Object.entries({ K: 1000, M: 1000000 })], in insertion order. *)
Definition multipliers : list (string * float) :=
  [("K", 1000%float); ("M", 1000000%float)].

(** The [for] loop with its [break]: the first suffix that occurs in
    [points] decides.  Note that the loop body reads [points], not the
    already comma-stripped [numericValue]. *)
Fixpoint suffix_loop (entries : list (string * float)) (points : string)
  : option float :=
  match entries with
  | [] => None
  | (suffix, multiplier) :: rest =>
      if includes suffix points
      then Some (PrimFloat.mul (parseFloat (replace suffix "" points)) multiplier)
      else suffix_loop rest points
  end.

Definition parsePoints (p : points) : result float :=
  match p with
  | PNum x => Val x
  | PStr s =>
      let numericValue := remove_all "," s in
      match suffix_loop multipliers s with
      | Some x => Val (parseFloat_number x)
      | None => Val (parseFloat numericValue)
      end
  | POther => Throw TypeError      (* points.replace is not a function *)
  end.

End PointsCalculator.

(** ** JSON values *)

(** What [JSON.parse] returns.  The documents this program parses (token
    claims, the [user] descriptor of an account line, the token file) carry
    integer numbers only.  [undefined], which is not a JSON value, is the
    [None] of [option json]. *)
#[warnings="-register-all"] Inductive json : Type :=
  | JNull
  | JBool (b : bool)
  | JNum (n : Z)
  | JStr (s : string)
  | JArr (items : list json)
  | JObj (members : list (string * json)).

Module Js.

(** ToBoolean *)
Definition truthy (v : option json) : bool :=
  match v with
  | None | Some JNull => false
  | Some (JBool b) => b
  | Some (JNum n) => negb (Z.eqb n 0)
  | Some (JStr s) => negb (String.eqb s "")
  | Some (JArr _) | Some (JObj _) => true
  end.

(** The last member named [k]: a later duplicate key overrides an
    earlier one when an object is built from its text. *)
Fixpoint last_member (k : string) (ms : list (string * json)) : option json :=
  match ms with
  | [] => None
  | (k', v) :: rest =>
      match last_member k rest with
      | Some v' => Some v'
      | None => if String.eqb k k' then Some v else None
      end
  end.

(** [v.k] for one of the field names this program reads ([exp], [id],
    [access_token]): a [TypeError] on [null], the member on an object,
    [undefined] on everything else. *)
Definition get (v : json) (k : string) : result (option json) :=
  match v with
  | JNull => Throw TypeError
  | JObj ms => Val (last_member k ms)
  | _ => Val None
  end.

(** [v?.k] where [v] may be [undefined]. *)
Definition get_opt (v : option json) (k : string) : option json :=
  match v with
  | None | Some JNull => None
  | Some (JObj ms) => last_member k ms
  | Some _ => None
  end.

Definition decimal (n : Z) : string :=
  DecimalString.NilZero.string_of_int (Z.to_int n).

Fixpoint join (sep : string) (l : list string) : string :=
  match l with
  | [] => ""
  | [x] => x
  | x :: rest => x ++ sep ++ join sep rest
  end.

(** ToString, as used for a computed property key and in template
    literals.  Integers print in decimal (they are far below 1e21
    here). *)
Fixpoint to_string (v : json) : string :=
  match v with
  | JNull => "null"
  | JBool true => "true"
  | JBool false => "false"
  | JNum n => decimal n
  | JStr s => s
  | JArr items =>
      join "," (List.map (fun x => match x with
                                   | JNull => ""
                                   | _ => to_string x
                                   end) items)
  | JObj _ => "[object Object]"
  end.

(** ToPropertyKey of a value that may be [undefined]. *)
Definition to_key (v : option json) : string :=
  match v with
  | None => "undefined"
  | Some x => to_string x
  end.

(** *** Objects as the runtime keeps them

    An object is its list of own properties in the order in which
    [JSON.stringify] and [Object.keys] list them: the keys that are array
    indices first, in ascending order, then the other keys in the order
    in which they were created. *)

Fixpoint digits (acc : Z) (s : string) : option Z :=
  match s with
  | EmptyString => Some acc
  | String c rest =>
      if JsNumber.is_digit c
      then digits (10 * acc + JsNumber.digit_val c) rest
      else None
  end.

(** An array index is the canonical decimal form of an integer below
    [2^32 - 1]. *)
Definition array_index (k : string) : option Z :=
  match k with
  | EmptyString => None
  | _ =>
      match digits 0 k with
      | Some n =>
          if String.eqb (decimal n) k && (n <? 4294967295) then Some n else None
      | None => None
      end
  end.

Fixpoint has_own (k : string) (o : list (string * json)) : bool :=
  match o with
  | [] => false
  | (k', _) :: rest => String.eqb k k' || has_own k rest
  end.

Fixpoint replace_own (k : string) (v : json) (o : list (string * json))
  : list (string * json) :=
  match o with
  | [] => []
  | (k', v') :: rest =>
      (k', if String.eqb k k' then v else v') :: replace_own k v rest
  end.

(** A new property whose key is the array index [n] goes after the
    indices below [n]. *)
Fixpoint insert_index (n : Z) (kv : string * json) (o : list (string * json))
  : list (string * json) :=
  match o with
  | [] => [kv]
  | (k', v') :: rest =>
      match array_index k' with
      | Some n' => if n' <? n then (k', v') :: insert_index n kv rest else kv :: o
      | None => kv :: o
      end
  end.

(** Setting the own property [k]: its value is replaced where it stands,
    a new property takes its place in the order. *)
Definition define (k : string) (v : json) (o : list (string * json))
  : list (string * json) :=
  if has_own k o then replace_own k v o
  else match array_index k with
       | Some n => insert_index n (k, v) o
       | None => o ++ [(k, v)]
       end.

(** The object [JSON.parse] builds from the members of an object as they
    are written: a later member replaces the value of an earlier one with
    the same key. *)
Definition object_of (members : list (string * json)) : list (string * json) :=
  foldl (fun o kv => define kv.1 kv.2 o) [] members.

(** The runtime's form of a JSON value given by its text: every object,
    at every depth, is the object [JSON.parse] builds from its members.
    It is what [JSON.parse] returns for the text and what
    [JSON.stringify] writes back. *)
Fixpoint normal (v : json) : json :=
  match v with
  | JArr items => JArr (List.map normal items)
  | JObj members =>
      JObj (object_of (List.map (fun kv => (kv.1, normal kv.2)) members))
  | _ => v
  end.

(** [items[n] = v] on an array: a hole left below [n] is written as
    [null] by [JSON.stringify]. *)
Definition set_item (n : nat) (v : json) (items : list json) : list json :=
  if (n <? length items)%nat then <[n := v]> items
  else (items ++ replicate (n - length items) JNull ++ [v])%list.

(** [target[k] = v] in strict code (a class body), for an object [v],
    giving [target] as [JSON.stringify] will see it.  [null] has no
    properties.  The key [__proto__], unless it is an own property, is
    the setter of [Object.prototype]: on an object it installs [v] as the
    prototype and creates no property, on a primitive it does nothing.
    Any other key cannot be created on a primitive.  On an array an index
    sets that element, [length] wants a number, and a property under
    another key is not part of what is written. *)
Definition assign (target : json) (k : string) (v : json) : result json :=
  match target with
  | JNull => Throw TypeError
  | JBool _ | JNum _ | JStr _ =>
      if String.eqb k "__proto__" then Val target else Throw TypeError
  | JArr items =>
      match array_index k with
      | Some n => Val (JArr (set_item (Z.to_nat n) v items))
      | None => if String.eqb k "length" then Throw RangeError else Val target
      end
  | JObj o =>
      if String.eqb k "__proto__" && negb (has_own k o) then Val target
      else Val (JObj (define k v o))
  end.

(** The mapping from keys to values that a list of members stands for. *)
Definition mapping (members : list (string * json)) : gmap string json :=
  foldl (fun m kv => <[kv.1 := kv.2]> m) ∅ members.

(** What [v[k]?.access_token] can find in [v]: nothing at all on [null],
    where [v[k]] throws; the members of an object; the elements of an
    array under their indices; nothing on a boolean, a number or a
    string (a character of a string has no [access_token]).  Whatever
    [v[k]] inherits from a prototype has no [access_token] either. *)
Definition records (v : json) : option (gmap string json) :=
  match v with
  | JNull => None
  | JObj members => Some (mapping members)
  | JArr items =>
      Some (mapping (imap (fun i x => (decimal (Z.of_nat i), x)) items))
  | JBool _ | JNum _ | JStr _ => Some ∅
  end.

End Js.

(** ** The runtime's decoders *)

(** [JSON.parse], [Buffer.from(s, "base64").toString()] and
    [decodeURIComponent] are taken as they come with the runtime; the
    program is modelled over any implementation of them.  A reference
    implementation, used to run the model on concrete inputs, is the
    instance [Runtime.node] below. *)
Class Platform : Type := {
  JSON_parse : string -> option json;           (* None: SyntaxError *)
  base64_decode : string -> string;
  decodeURIComponent : string -> option string  (* None: URIError *)
}.

(** ** HTTP messages *)

Inductive endpoint : Type :=
  | PassportLoginTelegram          (* /passport/login/telegram *)
  | Home                           (* /home *)
  | HomeCollect                    (* /home/collect *)
  | ModelList                      (* /model/list *)
  | ModelUpgrade                   (* /model/upgrade *)
  | TaskList                       (* /task/list *)
  | TaskComplete (task_id : Z).    (* /task/${taskId}/complete *)

Inductive payload : Type :=
  | LoginData (invite_code init_data : string)
  | CollectData (type : string) (count : Z)   (* [{ type, count }] *)
  | EmptyData.                                (* {} *)

Inductive request : Type :=
  | Post (e : endpoint) (data : payload) (token : option json)
  | Get (e : endpoint) (token : option json).

Record coin : Type := { coin_type : string; coin_count : Z }.
Record model : Type := { name : string; current_level : Z }.
Record cost_entry : Type := { level : Z; cost : float }.
Record checkin : Type := { is_today_checkin : Z }.
Record task : Type := {
  task_id : Z;
  task_name : string;
  is_complete : bool;
  reward_points : Z;
  checkin_detail : option checkin
}.

Record home : Type := {
  pin_points : points;
  coins : option (list coin);
  current_model : option model;
  data_power : Z
}.

(** [response.data].  Each constructor is an object with the fields of one
    endpoint; a field may be missing where the program would trip over
    it.  [NoData] is a response without a body. *)
Inductive body : Type :=
  | NoData
  | EmptyObject
  | LoginBody (access_token : option json)
  | HomeBody (h : home)
  | CoinsBody (coins : option (list coin))
  | ModelListBody (cost_config : option (list cost_entry))
  | TaskListBody (tasks : option (list task))
  | StatusBody (status : string).

Inductive reply : Type :=
  | Rejected                 (* axios throws: no answer, or a status it rejects *)
  | Response (status : Z) (data : body).

(** ** Log lines *)

Inductive level_name : Type := Info | Warn | Error.

Inductive task_message : Type :=
  | DailyCheckin                                (* "Daily check-in completed" *)
  | TaskReward (task_name : string) (reward : Z).
                        (* `Task ${task_name} completed | Reward: ${reward}` *)

Inductive message : Type :=
  | ApiPostError (e : endpoint) (err : error)
  | ApiGetError (e : endpoint) (err : error)
  | LoadTokensError (err : error)
  | TokenSaved (user_id : option json)
  | SaveTokenError (err : error)
  | TokenExpiresAt (exp : Z)
  | ExpirationCheckError (err : error)
  | LoginSuccessful
  | LoginFailed (err : error)
  | CurrentModel (name : string)
  | CurrentLevel (lvl : Z)
  | DataPower (dp : Z)
  | Balance (p : points)
  | HomeDataError (err : error)
  | InsufficientBalance (target : Z)
  | UpgradeCheckError (err : error)
  | ModelUpgraded (new_level : Z)
  | UpgradeError (err : error)
  | CoinsRemaining (count : Z)
  | AllCoinsCollected
  | CollectError (err : error)
  | TaskDone (m : task_message)
  | TasksError (err : error)
  | CompleteTaskError (task_id : Z) (err : error)
  | ProcessingAccount (i : nat)
  | TokenInvalid (user_id : option json)
  | MainProcessError (err : error).

(** ** The outside world *)

Inductive event : Type :=
  | Logged (l : level_name) (m : message)
  | Sent (r : request)
  | Waited (seconds : Z).                       (* UserInterface.countdown *)

(** [token.json]: missing, not parsable, or a JSON text given by its
    structure, every object by its members as written. *)
Inductive file_content : Type :=
  | Unparsable
  | Document (value : json).

Record world : Type := mkWorld {
  token_file : option file_content;   (* None: the file does not exist *)
  writable : bool;                    (* does fs.writeFileSync succeed *)
  trace : list event                  (* what happened so far, newest first *)
}.

(** [w] after one more event. *)
Definition record (ev : event) (w : world) : world :=
  mkWorld (token_file w) (writable w) (ev :: trace w).

(** The server and the clock are outside the program: the reply to a
    request and the clock reading may depend on everything that happened
    before. *)
Record environment : Type := {
  net : list event -> request -> reply;
  clock : list event -> Z             (* Math.floor(DateTime.now().toSeconds()) *)
}.

(** How the process stands when the model stops: it called
    [process.exit], or it is still in its loop. *)
Inductive process_state : Type :=
  | Exited (code : Z)
  | Returned
  | Running.

(** ** Computations: state, exceptions, and running out of steps *)

Inductive outcome (A : Type) : Type :=
  | Done (a : A)
  | Raised (e : error)
  | OutOfFuel.
Arguments Done {A} a.
Arguments Raised {A} e.
Arguments OutOfFuel {A}.

Definition M (A : Type) : Type := world -> outcome A * world.

Module Monad.

Definition ret {A} (a : A) : M A := fun w => (Done a, w).

Definition bind {A B} (m : M A) (k : A -> M B) : M B :=
  fun w => match m w with
           | (Done a, w') => k a w'
           | (Raised e, w') => (Raised e, w')
           | (OutOfFuel, w') => (OutOfFuel, w')
           end.

Definition throw {A} (e : error) : M A := fun w => (Raised e, w).

(** [try { m } catch (error) { h error }] *)
Definition try_catch {A} (m : M A) (h : error -> M A) : M A :=
  fun w => match m w with
           | (Raised e, w') => h e w'
           | r => r
           end.

Definition lift {A} (r : result A) : M A :=
  match r with
  | Val a => ret a
  | Throw e => throw e
  end.

Definition emit (ev : event) : M unit :=
  fun w => (Done tt, record ev w).

Definition history : M (list event) := fun w => (Done (trace w), w).

Fixpoint for_each {A} (f : A -> M unit) (l : list A) : M unit :=
  match l with
  | [] => ret tt
  | x :: rest => bind (f x) (fun _ => for_each f rest)
  end.

End Monad.

#[global] Instance M_ret : MRet M := @Monad.ret.
#[global] Instance M_bind : MBind M := fun A B k m => Monad.bind m k.

Module logger.
Definition info (m : message) : M unit := Monad.emit (Logged Info m).
Definition warn (m : message) : M unit := Monad.emit (Logged Warn m).
Definition error (m : message) : M unit := Monad.emit (Logged Error m).
End logger.

Module UserInterface.
Definition countdown (seconds : Z) : M unit := Monad.emit (Waited seconds).
End UserInterface.

(** ** Reading [response.data] *)

Module Body.

(** [response.data.access_token] *)
Definition access_token (d : body) : result (option json) :=
  match d with
  | NoData => Throw TypeError
  | LoginBody t => Val t
  | _ => Val None
  end.

(** [const { pin_points, coins, current_model, data_power } = response.data] *)
Definition destructure_home (d : body) : result home :=
  match d with
  | NoData => Throw TypeError
  | HomeBody h => Val h
  | CoinsBody cs =>
      Val {| pin_points := POther; coins := cs; current_model := None; data_power := 0 |}
  | _ =>
      Val {| pin_points := POther; coins := None; current_model := None; data_power := 0 |}
  end.

(** [response.data.coins] *)
Definition coins (d : body) : result (option (list coin)) :=
  match d with
  | NoData => Throw TypeError
  | HomeBody h => Val (coins h)
  | CoinsBody cs => Val cs
  | _ => Val None
  end.

(** [response.data.cost_config] *)
Definition cost_config (d : body) : result (option (list cost_entry)) :=
  match d with
  | NoData => Throw TypeError
  | ModelListBody cfg => Val cfg
  | _ => Val None
  end.

(** [response.data.tasks] *)
Definition tasks (d : body) : result (option (list task)) :=
  match d with
  | NoData => Throw TypeError
  | TaskListBody ts => Val ts
  | _ => Val None
  end.

(** [response.data.status] *)
Definition status (d : body) : result (option string) :=
  match d with
  | NoData => Throw TypeError
  | StatusBody s => Val (Some s)
  | _ => Val None
  end.

(** Reading through a field that is [undefined] throws. *)
Definition defined {A} (x : option A) : M A :=
  match x with
  | Some a => Monad.ret a
  | None => Monad.throw TypeError
  end.

End Body.

(** ** [ApiService] *)

Module ApiService.
Section WithEnvironment.

Context (env : environment).

(** The [Authorization] header is attached only for a truthy token. *)
Definition bearer (token : option json) : option json :=
  if Js.truthy token then token else None.

(** [axios.post] / [axios.get]: the request goes out, the server decides. *)
Definition exchange (r : request) : M (Z * body) :=
  fun w =>
    match net env (trace w) r with
    | Rejected => (Raised NetworkError, record (Sent r) w)
    | Response st d => (Done (st, d), record (Sent r) w)
    end.

Definition post (e : endpoint) (data : payload) (token : option json)
  : M (Z * body) :=
  Monad.try_catch (exchange (Post e data (bearer token)))
    (fun err => logger.error (ApiPostError e err);; Monad.throw err).

Definition get (e : endpoint) (token : option json) : M (Z * body) :=
  Monad.try_catch (exchange (Get e (bearer token)))
    (fun err => logger.error (ApiGetError e err);; Monad.throw err).

End WithEnvironment.
End ApiService.

(** ** [TokenManager] *)

Module TokenManager.
Section WithEnvironment.

Context {platform : Platform} (env : environment).

(** [loadTokens]: the parsed content of the file, [{}] when there is
    no file, and [{}] with the error logged when it cannot be parsed. *)
Definition loadTokens : M json :=
  fun w =>
    match token_file w with
    | None => Monad.ret (JObj []) w
    | Some (Document value) => Monad.ret (Js.normal value) w
    | Some Unparsable =>
        (logger.error (LoadTokensError SyntaxError);; Monad.ret (JObj [])) w
    end.

(** [fs.writeFileSync(this.tokenFilePath, JSON.stringify(tokens, null, 2))].
    The text may be of any length. *)
Definition writeTokens (tokens : json) : M unit :=
  fun w =>
    if writable w
    then (Done tt, mkWorld (Some (Document (Js.normal tokens))) (writable w) (trace w))
    else (Raised IOError, w).

Definition saveToken (userId : option json) (token : json) : M unit :=
  Monad.try_catch
    (tokens ← loadTokens;
     tokens ← Monad.lift
                (Js.assign tokens (Js.to_key userId) (JObj [("access_token", token)]));
     writeTokens tokens;;
     logger.info (TokenSaved userId))
    (fun err => logger.error (SaveTokenError err)).

(** The middle segment of the token, decoded: [token.split(".")] needs a
    string, [Buffer.from] a defined argument, [JSON.parse] a JSON text. *)
Definition decode_claims (token : json) : result json :=
  match token with
  | JStr s =>
      match nth_error (JsString.split "." s) 1 with
      | Some payload =>
          match JSON_parse (base64_decode payload) with
          | Some decodedPayload => Val decodedPayload
          | None => Throw SyntaxError
          end
      | None => Throw TypeError
      end
  | _ => Throw TypeError
  end.

Definition isExpired (token : json) : M bool :=
  Monad.try_catch
    (decodedPayload ← Monad.lift (decode_claims token);
     h ← Monad.history;
     let now := clock env h in
     exp ← Monad.lift (Js.get decodedPayload "exp");
     if Js.truthy exp then
       match exp with
       | Some (JNum e) =>
           logger.info (TokenExpiresAt e);;
           mret (e <? now)
       | _ => Monad.throw InvalidArgument       (* DateTime.fromSeconds *)
       end
     else mret false)
    (fun err => logger.error (ExpirationCheckError err);; mret true).

End WithEnvironment.
End TokenManager.

(** ** [PinAi] *)

Module PinAi.
Section WithEnvironment.

Context {platform : Platform} (env : environment).

Definition loginToPinaiAPI (initData : string) : M (option json) :=
  Monad.try_catch
    ('(status, data) ← ApiService.post env PassportLoginTelegram
                         (LoginData "pBVlK4n" initData) None;
     if status =? 200 then
       logger.info LoginSuccessful;;
       Monad.lift (Body.access_token data)
     else mret None)
    (fun err => logger.error (LoginFailed err);; mret None).

Definition logHomeData (currentModel : option model) (dataPower : Z) (p : points)
  : M unit :=
  m ← Body.defined currentModel;
  logger.info (CurrentModel (name m));;
  logger.info (CurrentLevel (current_level m));;
  logger.info (DataPower dataPower);;
  logger.info (Balance p).

Definition upgradeModel (token : json) (newLevel : Z) : M unit :=
  Monad.try_catch
    ('(status, _) ← ApiService.post env ModelUpgrade EmptyData (Some token);
     if status =? 200 then logger.info (ModelUpgraded newLevel) else mret tt)
    (fun err => logger.error (UpgradeError err)).

Definition checkAndUpgradeModel (token : json) (currentPoints : points)
    (currentLevel : Z) : M unit :=
  Monad.try_catch
    ('(status, data) ← ApiService.get env ModelList (Some token);
     if status =? 200 then
       cfg ← Monad.lift (Body.cost_config data);
       cost_config ← Body.defined cfg;
       match List.find (fun config => level config =? currentLevel + 1) cost_config with
       | Some nextLevelCost =>
           numericPoints ← Monad.lift (PointsCalculator.parsePoints currentPoints);
           if PrimFloat.leb (cost nextLevelCost) numericPoints
           then upgradeModel token (currentLevel + 1)
           else logger.warn (InsufficientBalance (currentLevel + 1))
       | None => mret tt
       end
     else mret tt)
    (fun err => logger.error (UpgradeCheckError err)).

Definition is_telegram (c : coin) : bool := String.eqb (coin_type c) "Telegram".

(** The [while (coin.count > 0)] loop.  [count] is the mutable
    [coin.count]; [steps] bounds the number of iterations that are run. *)
Fixpoint collect_loop (steps : nat) (token : json) (type : string) (count : Z)
  : M unit :=
  if 0 <? count then
    match steps with
    | O => fun w => (OutOfFuel, w)
    | S steps' =>
        '(status, data) ← ApiService.post env HomeCollect (CollectData type count) (Some token);
        if status =? 200 then
          cs ← Monad.lift (Body.coins data);
          cs ← Body.defined cs;
          c ← Body.defined (List.find is_telegram cs);
          let count := coin_count c in
          logger.info (CoinsRemaining count);;
          if count =? 0 then mret tt
          else UserInterface.countdown 2;; collect_loop steps' token type count
        else mret tt
    end
  else mret tt.

Definition collectCoins (steps : nat) (token : json) (c : coin) : M unit :=
  Monad.try_catch
    (collect_loop steps token (coin_type c) (coin_count c);;
     logger.info AllCoinsCollected)
    (fun err => logger.error (CollectError err)).

Definition getHomeData (steps : nat) (token : json) (shouldUpgrade : bool)
  : M unit :=
  Monad.try_catch
    ('(status, data) ← ApiService.get env Home (Some token);
     if status =? 200 then
       h ← Monad.lift (Body.destructure_home data);
       logHomeData (current_model h) (data_power h) (pin_points h);;
       cs ← Body.defined (coins h);
       match List.find is_telegram cs with
       | Some coinToCollect =>
           if 0 <? coin_count coinToCollect
           then collectCoins steps token coinToCollect
           else mret tt
       | None => mret tt
       end;;
       if shouldUpgrade then
         m ← Body.defined (current_model h);
         checkAndUpgradeModel token (pin_points h) (current_level m)
       else mret tt
     else mret tt)
    (fun err => logger.error (HomeDataError err)).

Definition completeTask (token : json) (taskId : Z) (successMessage : task_message)
  : M unit :=
  Monad.try_catch
    ('(status, data) ← ApiService.post env (TaskComplete taskId) EmptyData (Some token);
     if status =? 200 then
       st ← Monad.lift (Body.status data);
       match st with
       | Some s => if String.eqb s "success"
                   then logger.info (TaskDone successMessage) else mret tt
       | None => mret tt
       end
     else mret tt)
    (fun err => logger.error (CompleteTaskError taskId err)).

(** The body of [for (const task of response.data.tasks)].  The first
    condition is a short-circuit [&&]: [task.checkin_detail] is read only
    for the task with id 1001. *)
Definition handle_task (token : json) (t : task) : M unit :=
  checkin_due ← (if task_id t =? 1001 then
                   d ← Body.defined (checkin_detail t);
                   mret (is_today_checkin d =? 0)
                 else mret false);
  if checkin_due : bool then
    completeTask token (task_id t) DailyCheckin
  else if negb (is_complete t) then
    completeTask token (task_id t) (TaskReward (task_name t) (reward_points t))
  else mret tt.

Definition getTasks (token : json) : M unit :=
  Monad.try_catch
    ('(status, data) ← ApiService.get env TaskList (Some token);
     if status =? 200 then
       ts ← Monad.lift (Body.tasks data);
       ts ← Body.defined ts;
       Monad.for_each (handle_task token) ts
     else mret tt)
    (fun err => logger.error (TasksError err)).

(** [JSON.parse(decodeURIComponent(initData.split("user=")[1].split("&")[0])).id] *)
Definition extract_user_id (initData : string) : result (option json) :=
  match nth_error (JsString.split "user=" initData) 1 with
  | None => Throw TypeError
  | Some rest =>
      match JsString.split "&" rest with
      | [] => Throw TypeError
      | segment :: _ =>
          match decodeURIComponent segment with
          | None => Throw URIError
          | Some text =>
              match JSON_parse text with
              | None => Throw SyntaxError
              | Some user => Js.get user "id"
              end
          end
      end
  end.

Definition shouldUpgrade : bool := true.

(** The branch of [main] for an account without a usable cached token:
    log in, and on success save the token and run both engines. *)
Definition login_and_run (steps : nat) (userId : option json)
    (initData : string) : M unit :=
  logger.warn (TokenInvalid userId);;
  newToken ← loginToPinaiAPI initData;
  match newToken with
  | Some t =>
      if Js.truthy newToken then
        TokenManager.saveToken userId t;;
        getHomeData steps t shouldUpgrade;;
        getTasks t
      else mret tt
  | None => mret tt
  end.

(** The other branch: both engines with the cached token. *)
Definition run_with (steps : nat) (currentToken : option json) : M unit :=
  match currentToken with
  | Some t => getHomeData steps t shouldUpgrade;; getTasks t
  | None => mret tt
  end.

(** [!currentToken || this.tokenManager.isExpired(currentToken)] *)
Definition unusable (currentToken : option json) : M bool :=
  match currentToken with
  | Some t => if Js.truthy currentToken then TokenManager.isExpired env t else mret true
  | None => mret true
  end.

(** One turn of the [for] loop of [main], for the line [initData] at
    index [i], when the lookup [tokenData[userId]] goes through; the
    mapping [tokenData] is what the lookup can find. *)
Definition process_account (steps : nat) (tokenData : gmap string json)
    (i : nat) (initData : string) : M unit :=
  userId ← Monad.lift (extract_user_id initData);
  logger.info (ProcessingAccount (i + 1));;
  let currentToken := Js.get_opt (tokenData !! Js.to_key userId) "access_token" in
  expired ← unusable currentToken;
  (if expired : bool
   then login_and_run steps userId initData
   else run_with steps currentToken);;
  UserInterface.countdown 3.

(** One turn of the [for] loop on whatever [loadTokens] returned before
    the loop: on [null] the lookup [tokenData[userId]] throws, after the
    account id was read and the account announced. *)
Definition turn (steps : nat) (tokenData : json) (i : nat) (initData : string)
  : M unit :=
  match Js.records tokenData with
  | Some records => process_account steps records i initData
  | None =>
      userId ← Monad.lift (extract_user_id initData);
      logger.info (ProcessingAccount (i + 1));;
      Monad.throw TypeError
  end.

Fixpoint for_accounts (steps : nat) (tokenData : json)
    (i : nat) (data : list string) : M unit :=
  match data with
  | [] => mret tt
  | initData :: rest =>
      turn steps tokenData i initData;;
      for_accounts steps tokenData (S i) rest
  end.

(** [while (true)], run for at most [cycles] passes. *)
Fixpoint main_loop (cycles steps : nat) (tokenData : json)
    (data : list string) : M unit :=
  match cycles with
  | O => fun w => (OutOfFuel, w)
  | S cycles' =>
      for_accounts steps tokenData O data;;
      UserInterface.countdown 86400;;
      main_loop cycles' steps tokenData data
  end.

(** [.replace(/\r/g, "").split("\n").filter(Boolean)] *)
Definition account_lines (text : string) : list string :=
  List.filter (fun l => negb (String.eqb l ""))
    (JsString.split (String "010"%char "") (JsString.remove_all "013"%char text)).

(** [main]: [data_txt] is what [fs.readFileSync(dataFile)] yields, [None]
    when it throws. *)
Definition main (cycles steps : nat) (data_txt : option string)
  : world -> process_state * world :=
  fun w =>
    let body : M unit :=
      text ← match data_txt with
             | Some text => mret text
             | None => Monad.throw IOError
             end;
      let data := account_lines text in
      tokenData ← TokenManager.loadTokens;
      main_loop cycles steps tokenData data in
    match body w with
    | (Raised err, w') =>
        (Exited 1, snd (logger.error (MainProcessError err) w'))
    | (OutOfFuel, w') => (Running, w')
    | (Done _, w') => (Returned, w')
    end.

End WithEnvironment.
End PinAi.

Export TokenManager PinAi.

(** ** A reference runtime *)

(** Executable decoders, enough to run the model on real token strings
    and account lines: JSON with integer numbers and the simple escapes,
    base64 in both alphabets, percent-decoding of single bytes. *)
Module Runtime.

Definition quote : ascii := "034"%char.
Definition backslash : ascii := "092"%char.

Fixpoint read_string (s acc : string) : option (string * string) :=
  match s with
  | EmptyString => None
  | String c r =>
      if Ascii.eqb c quote then Some (String.rev acc, r)
      else if Ascii.eqb c backslash then
        match r with
        | String d r' =>
            let plain x := read_string r' (String x acc) in
            if Ascii.eqb d quote then plain quote
            else if Ascii.eqb d backslash then plain backslash
            else if Ascii.eqb d "/" then plain "/"%char
            else if Ascii.eqb d "n" then plain "010"%char
            else if Ascii.eqb d "r" then plain "013"%char
            else if Ascii.eqb d "t" then plain "009"%char
            else None
        | EmptyString => None
        end
      else read_string r (String c acc)
  end.

Definition read_integer (s : string) : option (json * string) :=
  let '(neg, s1) := match s with
                    | String "-"%char r => (true, r)
                    | _ => (false, s)
                    end in
  let '(ds, rest) := JsNumber.span_digits s1 in
  match ds, rest with
  | EmptyString, _ => None
  | _, String "."%char _ | _, String "e"%char _ | _, String "E"%char _ => None
  | _, _ => let n := JsNumber.digits_value 0 ds in
            Some (JNum (if neg then - n else n), rest)
  end.

Definition literal (word : string) (v : json) (s : string) : option (json * string) :=
  if String.prefix word s
  then Some (v, JsString.drop (String.length word) s)
  else None.

Fixpoint parse_value (fuel : nat) (s : string) : option (json * string) :=
  match fuel with
  | O => None
  | S fuel' =>
      match JsNumber.skip_spaces s with
      | String "{"%char r =>
          match JsNumber.skip_spaces r with
          | String "}"%char r' => Some (JObj [], r')
          | r' => parse_members fuel' r' []
          end
      | String "["%char r =>
          match JsNumber.skip_spaces r with
          | String "]"%char r' => Some (JArr [], r')
          | r' => parse_items fuel' r' []
          end
      | String "n"%char _ as t => literal "null" JNull t
      | String "t"%char _ as t => literal "true" (JBool true) t
      | String "f"%char _ as t => literal "false" (JBool false) t
      | String c r as t =>
          if Ascii.eqb c quote then
            match read_string r "" with
            | Some (str, r') => Some (JStr str, r')
            | None => None
            end
          else read_integer t
      | EmptyString => None
      end
  end
with parse_members (fuel : nat) (s : string) (acc : list (string * json))
  : option (json * string) :=
  match fuel with
  | O => None
  | S fuel' =>
      match JsNumber.skip_spaces s with
      | String c r =>
          if Ascii.eqb c quote then
            match read_string r "" with
            | Some (key, r1) =>
                match JsNumber.skip_spaces r1 with
                | String ":"%char r2 =>
                    match parse_value fuel' r2 with
                    | Some (v, r3) =>
                        match JsNumber.skip_spaces r3 with
                        | String ","%char r4 => parse_members fuel' r4 (acc ++ [(key, v)])
                        | String "}"%char r4 => Some (JObj (acc ++ [(key, v)]), r4)
                        | _ => None
                        end
                    | None => None
                    end
                | _ => None
                end
            | None => None
            end
          else None
      | EmptyString => None
      end
  end
with parse_items (fuel : nat) (s : string) (acc : list json)
  : option (json * string) :=
  match fuel with
  | O => None
  | S fuel' =>
      match parse_value fuel' s with
      | Some (v, r) =>
          match JsNumber.skip_spaces r with
          | String ","%char r' => parse_items fuel' r' (acc ++ [v])
          | String "]"%char r' => Some (JArr (acc ++ [v]), r')
          | _ => None
          end
      | None => None
      end
  end.

Definition json_parse (s : string) : option json :=
  match parse_value (2 * String.length s + 2) s with
  | Some (v, rest) =>
      match JsNumber.skip_spaces rest with
      | EmptyString => Some v
      | _ => None
      end
  | None => None
  end.

(** The six-bit value of a base64 character ([-] and [_] are accepted
    for [+] and [/]). *)
Definition sextet (c : ascii) : option N :=
  let n := N_of_ascii c in
  if (65 <=? n)%N && (n <=? 90)%N then Some (n - 65)%N
  else if (97 <=? n)%N && (n <=? 122)%N then Some (n - 71)%N
  else if (48 <=? n)%N && (n <=? 57)%N then Some (n + 4)%N
  else if (n =? 43)%N || (n =? 45)%N then Some 62%N
  else if (n =? 47)%N || (n =? 95)%N then Some 63%N
  else None.

(** Characters outside the alphabet are skipped; padding ends the data. *)
Fixpoint sextets (s : string) : list N :=
  match s with
  | EmptyString => []
  | String c r =>
      if Ascii.eqb c "=" then []
      else match sextet c with
           | Some v => v :: sextets r
           | None => sextets r
           end
  end.

Definition byte (n : N) : ascii := ascii_of_N (n mod 256).

Fixpoint octets (vs : list N) : string :=
  match vs with
  | a :: b :: c :: d :: rest =>
      String (byte (a * 4 + b / 16))
        (String (byte (b * 16 + c / 4))
           (String (byte (c * 64 + d)) (octets rest)))
  | [a; b; c] =>
      String (byte (a * 4 + b / 16)) (String (byte (b * 16 + c / 4)) "")
  | [a; b] => String (byte (a * 4 + b / 16)) ""
  | _ => ""
  end%N.

Definition base64 (s : string) : string := octets (sextets s).

Definition hex_digit (c : ascii) : option N :=
  let n := N_of_ascii c in
  if (48 <=? n)%N && (n <=? 57)%N then Some (n - 48)%N
  else if (65 <=? n)%N && (n <=? 70)%N then Some (n - 55)%N
  else if (97 <=? n)%N && (n <=? 102)%N then Some (n - 87)%N
  else None.

Fixpoint percent_decode (s : string) : option string :=
  match s with
  | EmptyString => Some EmptyString
  | String "%"%char (String h (String l r)) =>
      match hex_digit h, hex_digit l, percent_decode r with
      | Some x, Some y, Some t => Some (String (byte (16 * x + y)) t)
      | _, _, _ => None
      end
  | String "%"%char _ => None
  | String c r =>
      match percent_decode r with
      | Some t => Some (String c t)
      | None => None
      end
  end.

#[global] Instance node : Platform := {
  JSON_parse := json_parse;
  base64_decode := base64;
  decodeURIComponent := percent_decode
}.

End Runtime.

(** ** Observations on a run *)

(** The requests in a trace, newest first. *)
Fixpoint requests (tr : list event) : list request :=
  match tr with
  | [] => []
  | Sent r :: rest => r :: requests rest
  | _ :: rest => requests rest
  end.

(** The log lines of one level in a trace, newest first. *)
Fixpoint logged (l : level_name) (tr : list event) : list message :=
  match tr with
  | [] => []
  | Logged l' m :: rest =>
      match l, l' with
      | Info, Info | Warn, Warn | Error, Error => m :: logged l rest
      | _, _ => logged l rest
      end
  | _ :: rest => logged l rest
  end.

(** What [loadTokens] returns in [w]. *)
Definition loaded (w : world) : json :=
  match token_file w with
  | Some (Document value) => Js.normal value
  | _ => JObj []
  end.

(** The records a loaded value holds: the members of an object. *)
Definition members_of (v : json) : gmap string json :=
  match v with
  | JObj members => Js.mapping members
  | _ => ∅
  end.

(** The mapping the token file holds: the records, by their keys, of
    what [loadTokens] would return. *)
Definition stored (w : world) : gmap string json := members_of (loaded w).

(** A computation that never lets an exception out. *)
Definition safe {A} (m : M A) : Prop :=
  ∀ w e, fst (m w) ≠ Raised e.

(** The count a claim reply reports for the "Telegram" coin, if it
    reports one: [response.data.coins.find(...).count]. *)
Definition reported (d : body) : option Z :=
  match Body.coins d with
  | Val (Some cs) => coin_count <$> List.find is_telegram cs
  | _ => None
  end.

Definition claim_request (token : json) (type : string) (count : Z) : request :=
  Post HomeCollect (CollectData type count) (ApiService.bearer (Some token)).

(** A server whose successful claim replies always report fewer coins
    than were claimed. *)
Definition decreasing (env : environment) : Prop :=
  ∀ h type count token d c,
    net env h (Post HomeCollect (CollectData type count) token) = Response 200 d →
    reported d = Some c → c < count.

(** A server that answers every claim with 200 and a positive count. *)
Definition stubborn (env : environment) : Prop :=
  ∀ h type count token,
    ∃ d c, net env h (Post HomeCollect (CollectData type count) token) = Response 200 d
           ∧ reported d = Some c ∧ 0 < c.

(** The completion calls a task asks for, as the task loop decides them. *)
Definition completion (t : task) : list (Z * task_message) :=
  if (task_id t =? 1001)
     && match checkin_detail t with
        | Some d => is_today_checkin d =? 0
        | None => false
        end
  then [(task_id t, DailyCheckin)]
  else if negb (is_complete t)
       then [(task_id t, TaskReward (task_name t) (reward_points t))]
       else [].

Definition completions (ts : list task) : list (Z * task_message) :=
  flat_map completion ts.

(** The check-in task comes with its [checkin_detail]. *)
Definition has_checkin_detail (t : task) : Prop :=
  task_id t = 1001 → checkin_detail t ≠ None.

(** One planned completion call. *)
Definition complete_planned (env : environment) (tok : json)
    (p : Z * task_message) : M unit :=
  completeTask env tok p.1 p.2.

Definition cost_request (token : json) : request :=
  Get ModelList (ApiService.bearer (Some token)).

Definition upgrade_request (token : json) : request :=
  Post ModelUpgrade EmptyData (ApiService.bearer (Some token)).

(** The cost-table entry for [lvl + 1] in the reply to the cost request,
    when the reply is a 200 with a cost table that has one. *)
Definition next_level_cost (r : reply) (lvl : Z) : option cost_entry :=
  match r with
  | Response st d =>
      if st =? 200 then
        match Body.cost_config d with
        | Val (Some cfg) => List.find (fun config => level config =? lvl + 1) cfg
        | _ => None
        end
      else None
  | Rejected => None
  end.

(** [numericPoints >= nextLevelCost.cost], when the balance parses. *)
Definition affordable (entry : cost_entry) (pts : points) : option bool :=
  match PointsCalculator.parsePoints pts with
  | Val p => Some (PrimFloat.leb (cost entry) p)
  | Throw _ => None
  end.

(** [{ access_token: token }] *)
Definition token_record (token : json) : json := JObj [("access_token", token)].


Definition login_request (line : string) : request :=
  Post PassportLoginTelegram (LoginData "pBVlK4n" line) None.

Definition is_login (r : request) : bool :=
  match r with
  | Post PassportLoginTelegram _ _ => true
  | _ => false
  end.

(** The login requests in a trace. *)
Definition logins (tr : list event) : list request :=
  List.filter is_login (requests tr).

(** A computation that sends no login request. *)
Definition no_login {A} (m : M A) : Prop :=
  ∀ w, logins (trace (snd (m w))) = logins (trace w).

(** ** The order of an object's keys *)

(** [a] may stand before [b] among the own keys of an object: they
    differ, an array index stands before a larger one and before every
    key that is not an index. *)
Definition key_before (a b : string) : Prop :=
  a ≠ b
  ∧ match Js.array_index a, Js.array_index b with
    | Some m, Some n => m < n
    | Some _, None => True
    | None, Some _ => False
    | None, None => True
    end.

Fixpoint ordered_keys (ks : list string) : Prop :=
  match ks with
  | [] => True
  | k :: rest => Forall (key_before k) rest ∧ ordered_keys rest
  end.

(** The members of an object as the runtime lists them. *)
Definition ordered (o : list (string * json)) : Prop := ordered_keys (o.*1).

(** [loadTokens] returns an object: the token file is missing, cannot be
    parsed, or holds an object. *)
Definition object_store (w : world) : Prop :=
  match loaded w with
  | JObj _ => True
  | _ => False
  end.

(** A reply to the login request that carries no usable token: the
    request is rejected, answered with a status other than 200, or
    answered without a truthy [access_token]. *)
Definition no_token (r : reply) : Prop :=
  match r with
  | Rejected => True
  | Response st d =>
      st ≠ 200 ∨ match Body.access_token d with
                 | Val v => Js.truthy v = false
                 | Throw _ => True
                 end
  end.

(** ** Concrete servers and inputs *)

Module Scenario.

(** No token file yet, a writable disk, nothing has happened. *)
Definition start : world := mkWorld None true [].

(** A token whose claims are [{}]: it carries no expiration. *)
Definition token : json := JStr "e30.e30.sig".

(** A token whose claims are [{"exp":0}]. *)
Definition token_exp_zero : json := JStr "e30.eyJleHAiOjB9.sig".

(** A token whose claims are [{"exp":1700000000}]. *)
Definition token_exp_2023 : json := JStr "e30.eyJleHAiOjE3MDAwMDAwMDB9.sig".

(** An account line whose [user] field is [{"id":7}]. *)
Definition line7 : string := "query_id=AA&user=%7B%22id%22%3A7%7D&hash=ff".

(** An account line without a [user=] field. *)
Definition line_no_user : string := "query_id=AA&hash=ff".

Definition newline : string := String "010"%char "".

(** [data.txt] with the line without [user=] first, then [line7]. *)
Definition bad_then_good : string := line_no_user ++ newline ++ line7.

(** [data.txt] with [line7] first, then the line without [user=]. *)
Definition good_then_bad : string := line7 ++ newline ++ line_no_user.

Definition telegram (n : Z) : coin := {| coin_type := "Telegram"; coin_count := n |}.

Definition at_noon (h : list event) : Z := 1700000000.

(** Every claim is answered with one coin fewer. *)
Definition melting : environment := {|
  net := fun _ r =>
    match r with
    | Post HomeCollect (CollectData _ c) _ =>
        Response 200 (CoinsBody (Some [telegram (c - 1)]))
    | _ => Rejected
    end;
  clock := at_noon
|}.

(** Every claim is answered with 200 and seven coins left. *)
Definition sticky : environment := {|
  net := fun _ r =>
    match r with
    | Post HomeCollect _ _ => Response 200 (CoinsBody (Some [telegram 7]))
    | _ => Rejected
    end;
  clock := at_noon
|}.

Definition checkin_task (today : Z) (complete : bool) : task := {|
  task_id := 1001;
  task_name := "Daily check-in";
  is_complete := complete;
  reward_points := 10;
  checkin_detail := Some {| is_today_checkin := today |}
|}.

Definition plain_task (id : Z) (complete : bool) : task := {|
  task_id := id;
  task_name := "Follow";
  is_complete := complete;
  reward_points := 50;
  checkin_detail := None
|}.

Definition home_state (balance : points) (count : Z) : home := {|
  pin_points := balance;
  coins := Some [telegram count];
  current_model := Some {| name := "Nano"; current_level := 1 |};
  data_power := 5
|}.

(** A server for a whole pass: it logs the account in with [token],
    reports [balance] and [count] coins, answers a claim with a coin list
    that has no "Telegram" entry, prices level 2 at 1000000 points, and
    lists [tasks]. *)
Definition service (balance : points) (count : Z) (tasks : list task)
  : environment := {|
  net := fun _ r =>
    match r with
    | Post PassportLoginTelegram _ _ => Response 200 (LoginBody (Some token))
    | Get Home _ => Response 200 (HomeBody (home_state balance count))
    | Post HomeCollect _ _ =>
        Response 200 (CoinsBody (Some [{| coin_type := "Invite"; coin_count := 1 |}]))
    | Get ModelList _ =>
        Response 200 (ModelListBody (Some [{| level := 2; cost := 1000000%float |}]))
    | Post ModelUpgrade _ _ => Response 200 EmptyObject
    | Get TaskList _ => Response 200 (TaskListBody (Some tasks))
    | Post (TaskComplete _) _ _ => Response 200 (StatusBody "success")
    | _ => Rejected
    end;
  clock := at_noon
|}.

(** A server that rejects every request. *)
Definition offline : environment := {|
  net := fun _ _ => Rejected;
  clock := at_noon
|}.

End Scenario.

(** ** [UserInterface.formatTime] *)

Module Display.

(** [s.padStart(n, c)] with a one-character filler. *)
Definition padStart (n : nat) (c : ascii) (s : string) : string :=
  Nat.iter (n - String.length s) (String c) s.

(** [formatTime(totalSeconds)] for an integer number of seconds:
    [Math.floor] of a quotient is the floor division, [%] the remainder
    with the sign of the dividend. *)
Definition formatTime (totalSeconds : Z) : string :=
  let hours := totalSeconds / 3600 in
  let minutes := Z.rem totalSeconds 3600 / 60 in
  let seconds := Z.rem totalSeconds 60 in
  Js.join ":" [padStart 2 "0" (Js.decimal hours);
               padStart 2 "0" (Js.decimal minutes);
               padStart 2 "0" (Js.decimal seconds)].

(** Reading a display [HH:MM:SS] back. *)
Definition two_digits (a b : ascii) : option Z :=
  if JsNumber.is_digit a && JsNumber.is_digit b
  then Some (10 * JsNumber.digit_val a + JsNumber.digit_val b)
  else None.

Definition readTime (s : string) : option Z :=
  match s with
  | String h1 (String h0 (String c1 (String m1 (String m0
      (String c2 (String s1 (String s0 EmptyString))))))) =>
      if Ascii.eqb c1 ":" && Ascii.eqb c2 ":" then
        match two_digits h1 h0, two_digits m1 m0, two_digits s1 s0 with
        | Some h, Some m, Some sec => Some (3600 * h + 60 * m + sec)
        | _, _, _ => None
        end
      else None
  | _ => None
  end.

(** The character of a decimal digit. *)
Definition digit (k : Z) : ascii := ascii_of_nat (48 + Z.to_nat k).

(** A number below 100 written with two digits. *)
Definition two_digit_display (n : Z) : string :=
  String (digit (n / 10)) (String (digit (n mod 10)) "").

End Display.

(** ** What a computation may touch *)

(** The token file is what it was. *)
Definition same_file (w w' : world) : Prop :=
  token_file w' = token_file w ∧ writable w' = writable w.

(** Every record but the one under key [k] is what it was. *)
Definition other_records (k : string) (w w' : world) : Prop :=
  writable w' = writable w
  ∧ ∀ k', k' ≠ k → stored w' !! k' = stored w !! k'.

(** What a relation between the world before and after must satisfy to
    be carried through a computation: it composes, and it does not look
    at the trace. *)
Class Frame (R : world → world → Prop) : Prop := {
  frame_refl : ∀ w, R w w;
  frame_trans : ∀ w1 w2 w3, R w1 w2 → R w2 w3 → R w1 w3;
  frame_record : ∀ w ev, R w (record ev w)
}.

(** From any world, [m] moves the store along [R], only adds to the
    trace, and every request it sends satisfies [Q]. *)
Definition acts {A} (R : world → world → Prop) (Q : request → Prop)
    (m : M A) : Prop :=
  ∀ w, R w (snd (m w))
       ∧ ∃ new, trace (snd (m w)) = (new ++ trace w)%list
                ∧ Forall Q (requests new).

(** The requests of the home step for [tok]: the home state and the
    claims, and with [up] also the cost table and the upgrade. *)
Definition home_step_request (tok : json) (up : bool) (r : request) : Prop :=
  match r with
  | Get Home b | Post HomeCollect (CollectData _ _) b =>
      b = ApiService.bearer (Some tok)
  | Get ModelList b | Post ModelUpgrade EmptyData b =>
      up = true ∧ b = ApiService.bearer (Some tok)
  | _ => False
  end.

(** The requests of the task step for [tok]. *)
Definition task_step_request (tok : json) (r : request) : Prop :=
  match r with
  | Get TaskList b | Post (TaskComplete _) EmptyData b =>
      b = ApiService.bearer (Some tok)
  | _ => False
  end.

(** The requests of one account's turn. *)
Definition turn_request (line : string) (r : request) : Prop :=
  r = login_request line
  ∨ ∃ tok, home_step_request tok true r ∨ task_step_request tok r.

(** The characters of a string. *)
Definition chars (s : string) : list ascii := list_ascii_of_string s.

(** The point-balance parser with the suffix looked for in, and removed
    from, the comma-stripped string. *)
Definition strip_then_suffix (p : points) : result float :=
  match p with
  | PNum x => Val x
  | PStr s =>
      let numeric := JsString.remove_all "," s in
      match PointsCalculator.suffix_loop PointsCalculator.multipliers numeric with
      | Some x => Val (JsNumber.parseFloat_number x)
      | None => Val (JsNumber.parseFloat numeric)
      end
  | POther => Throw TypeError
  end.

(** The events of [cycles] passes over an empty account list. *)
Definition idle_passes (cycles : nat) : list event :=
  List.repeat (Waited 86400) cycles.

(** Whether the reply to a completion request reports success: status
    200 and ["success"] in the body. *)
Definition reports_success (r : reply) : bool :=
  match r with
  | Response st d =>
      (st =? 200)
      && match Body.status d with
         | Val (Some s) => String.eqb s "success"
         | _ => false
         end
  | Rejected => false
  end.

Definition complete_request (token : json) (taskId : Z) : request :=
  Post (TaskComplete taskId) EmptyData (ApiService.bearer (Some token)).

(** ** The steps of a turn and their error lines *)








(** * Properties *)

(** ** The computation monad *)

Section MonadLemmas.

Context {A B : Type}.

Lemma bind_done (m : M A) (k : A → M B) w a w' :
  m w = (Done a, w') → (m ≫= k) w = k a w'.
Proof. intros H. unfold mbind, M_bind, Monad.bind. now rewrite H. Qed.

Lemma bind_raised (m : M A) (k : A → M B) w e w' :
  m w = (Raised e, w') → (m ≫= k) w = (Raised e, w').
Proof. intros H. unfold mbind, M_bind, Monad.bind. now rewrite H. Qed.

Lemma bind_out_of_fuel (m : M A) (k : A → M B) w w' :
  m w = (OutOfFuel, w') → (m ≫= k) w = (OutOfFuel, w').
Proof. intros H. unfold mbind, M_bind, Monad.bind. now rewrite H. Qed.

Lemma try_done (m : M A) h w a w' :
  m w = (Done a, w') → Monad.try_catch m h w = (Done a, w').
Proof. intros H. unfold Monad.try_catch. now rewrite H. Qed.

Lemma try_raised (m : M A) h w e w' :
  m w = (Raised e, w') → Monad.try_catch m h w = h e w'.
Proof. intros H. unfold Monad.try_catch. now rewrite H. Qed.

Lemma try_out_of_fuel (m : M A) h w w' :
  m w = (OutOfFuel, w') → Monad.try_catch m h w = (OutOfFuel, w').
Proof. intros H. unfold Monad.try_catch. now rewrite H. Qed.

Lemma safe_ret (a : A) : safe (mret a : M A).
Proof. intros w e. discriminate. Qed.

Lemma safe_bind (m : M A) (k : A → M B) :
  safe m → (∀ a, safe (k a)) → safe (m ≫= k).
Proof.
  intros Hm Hk w e. unfold mbind, M_bind, Monad.bind.
  destruct (m w) as [[a | e' | ] w'] eqn:E.
  - apply Hk.
  - specialize (Hm w e'). rewrite E in Hm. now elim Hm.
  - discriminate.
Qed.

(** A handler that does not throw makes the whole [try] safe. *)
Lemma safe_try (m : M A) (h : error → M A) :
  (∀ e, safe (h e)) → safe (Monad.try_catch m h).
Proof.
  intros Hh w e. unfold Monad.try_catch.
  destruct (m w) as [[a | e' | ] w'] eqn:E; try discriminate.
  apply Hh.
Qed.

End MonadLemmas.

Lemma safe_emit ev : safe (Monad.emit ev).
Proof. intros w e. discriminate. Qed.

Lemma safe_info m : safe (logger.info m).
Proof. apply safe_emit. Qed.

Lemma safe_warn m : safe (logger.warn m).
Proof. apply safe_emit. Qed.

Lemma safe_error m : safe (logger.error m).
Proof. apply safe_emit. Qed.

Lemma safe_countdown n : safe (UserInterface.countdown n).
Proof. apply safe_emit. Qed.

(** The shape of the handlers that return a value: log, then return. *)
Lemma safe_error_then {A} m (a : A) : safe (logger.error m;; mret a).
Proof. intros w e. discriminate. Qed.

Lemma for_each_app {A} (f : A → M unit) l1 l2 w :
  Monad.for_each f (l1 ++ l2) w
  = (Monad.for_each f l1;; Monad.for_each f l2) w.
Proof.
  revert w. induction l1 as [| x l1 IH]; intros w; [reflexivity |].
  cbn [app Monad.for_each]. unfold mbind, M_bind, Monad.bind in *.
  destruct (f x w) as [[[] | e | ] w1]; [apply IH | reflexivity | reflexivity].
Qed.

Lemma safe_for_each {A} (f : A → M unit) l :
  (∀ x, safe (f x)) → safe (Monad.for_each f l).
Proof.
  intros Hf. induction l as [| x l IH]; [apply safe_ret |].
  apply (safe_bind (f x)); auto.
Qed.

(** Runs the sequencing of a computation as far as the outcomes of its
    steps are known. *)
Ltac run_monad :=
  cbv beta iota zeta delta
    [mbind mret M_bind M_ret Monad.bind Monad.ret Monad.throw Monad.lift
     Monad.emit Monad.history Monad.try_catch Body.defined
     logger.info logger.warn logger.error UserInterface.countdown].

Create HintDb safe.
#[export] Hint Resolve safe_ret safe_emit safe_info safe_warn safe_error
  safe_countdown safe_error_then safe_for_each safe_try safe_bind : safe.

(** ** The claim loop *)

Section ClaimLoop.

Context (env : environment).

Lemma collect_loop_idle steps tok ty count w :
  count ≤ 0 → collect_loop env steps tok ty count w = (Done tt, w).
Proof.
  intros H. destruct steps; cbn [collect_loop];
    (replace (0 <? count) with false by (symmetry; apply Z.ltb_ge; lia));
    reflexivity.
Qed.

Lemma collect_loop_exhausted tok ty count w :
  0 < count → collect_loop env O tok ty count w = (OutOfFuel, w).
Proof.
  intros H. cbn [collect_loop].
  replace (0 <? count) with true by (symmetry; apply Z.ltb_lt; lia).
  reflexivity.
Qed.

(** One turn of the loop, by the reply to the claim. *)
Lemma collect_loop_step steps tok ty count w :
  0 < count →
  collect_loop env (S steps) tok ty count w =
    let w1 := record (Sent (claim_request tok ty count)) w in
    match net env (trace w) (claim_request tok ty count) with
    | Rejected =>
        (Raised NetworkError,
         record (Logged Error (ApiPostError HomeCollect NetworkError)) w1)
    | Response st d =>
        if st =? 200 then
          match reported d with
          | Some c =>
              let w2 := record (Logged Info (CoinsRemaining c)) w1 in
              if c =? 0 then (Done tt, w2)
              else collect_loop env steps tok ty c (record (Waited 2) w2)
          | None => (Raised TypeError, w1)
          end
        else (Done tt, w1)
    end.
Proof.
  intros H. cbn [collect_loop].
  replace (0 <? count) with true by (symmetry; apply Z.ltb_lt; lia).
  unfold ApiService.post, claim_request, reported, Monad.try_catch, ApiService.exchange,
    mbind, M_bind, Monad.bind.
  destruct (net env (trace w) _) as [| st d]; [reflexivity |].
  destruct (st =? 200); [| reflexivity].
  destruct (Body.coins d) as [[cs |] | e] eqn:E; cbn; try reflexivity.
  - destruct (find is_telegram cs) as [c |]; cbn; [| reflexivity].
    destruct (coin_count c =? 0); reflexivity.
  - destruct d; try discriminate. now injection E as <-.
Qed.

(** With a [decreasing] server the loop is over after at most [count]
    claims. *)
Lemma collect_loop_terminates tok ty :
  decreasing env →
  ∀ steps count w,
    count ≤ Z.of_nat steps →
    fst (collect_loop env steps tok ty count w) ≠ OutOfFuel.
Proof.
  intros Hdec. induction steps as [| steps IH]; intros count w Hle.
  - rewrite collect_loop_idle by lia. discriminate.
  - destruct (Z_lt_le_dec 0 count) as [Hpos | Hnon].
    2: { rewrite collect_loop_idle by lia. discriminate. }
    rewrite collect_loop_step by assumption. cbn zeta.
    destruct (net env (trace w) _) as [| st d] eqn:Hnet; [discriminate |].
    destruct (st =? 200) eqn:Hst; [| discriminate].
    apply Z.eqb_eq in Hst. subst st.
    destruct (reported d) as [c |] eqn:Hrep; [| discriminate].
    destruct (c =? 0); [discriminate |].
    apply IH. pose proof (Hdec _ _ _ _ _ _ Hnet Hrep). lia.
Qed.

(** With a [stubborn] server the loop is never over. *)
Lemma collect_loop_diverges tok ty :
  stubborn env →
  ∀ steps count w,
    0 < count → fst (collect_loop env steps tok ty count w) = OutOfFuel.
Proof.
  intros Hst. induction steps as [| steps IH]; intros count w Hpos.
  - now rewrite collect_loop_exhausted.
  - rewrite collect_loop_step by assumption. cbn zeta.
    destruct (Hst (trace w) ty count (ApiService.bearer (Some tok))) as (d & c & Hnet & Hrep & Hc).
    unfold claim_request. rewrite Hnet. cbn. rewrite Hrep.
    replace (c =? 0) with false by (symmetry; apply Z.eqb_neq; lia).
    now apply IH.
Qed.

Lemma collectCoins_safe steps tok c : safe (collectCoins env steps tok c).
Proof. unfold collectCoins. auto with safe. Qed.

End ClaimLoop.

(** ** Objects: lookup, order, and what an assignment does *)

Section Objects.

Implicit Types (o members : list (string * json)) (k : string) (v : json).

Lemma mapping_snoc members k v :
  Js.mapping (members ++ [(k, v)]) = <[k := v]> (Js.mapping members).
Proof. unfold Js.mapping. now rewrite foldl_app. Qed.

Lemma last_member_snoc members k v k' :
  Js.last_member k' (members ++ [(k, v)])
  = if String.eqb k' k then Some v else Js.last_member k' members.
Proof.
  induction members as [| [k0 v0] members IH]; cbn [app Js.last_member].
  - reflexivity.
  - rewrite IH. destruct (String.eqb k' k); reflexivity.
Qed.

Lemma mapping_lookup members k :
  Js.mapping members !! k = Js.last_member k members.
Proof.
  induction members as [| [k0 v0] members IH] using rev_ind; [reflexivity |].
  rewrite mapping_snoc, last_member_snoc.
  destruct (String.eqb_spec k k0) as [-> | Hne].
  - apply lookup_insert_eq.
  - rewrite lookup_insert_ne by congruence. exact IH.
Qed.

Lemma has_own_false k o :
  Js.has_own k o = false ↔ Forall (fun k' => k' ≠ k) (o.*1).
Proof.
  induction o as [| [k' v'] o IH]; cbn [Js.has_own fmap list_fmap fst].
  - split; [constructor | reflexivity].
  - rewrite orb_false_iff, IH, Forall_cons. cbn [fst].
    destruct (String.eqb_spec k k'); split; intros [H1 H2];
      (split; [| assumption]); congruence.
Qed.

Lemma has_own_lookup k o :
  Js.has_own k o = false → Js.last_member k o = None.
Proof.
  induction o as [| [k' v'] o IH]; cbn [Js.has_own Js.last_member]; [reflexivity |].
  intros [H1 H2]%orb_false_iff. now rewrite IH, H1.
Qed.

Lemma has_own_member k o :
  Js.has_own k o = true → ∃ v, Js.last_member k o = Some v.
Proof.
  induction o as [| [k' v'] o IH]; cbn [Js.has_own Js.last_member]; [discriminate |].
  intros [H1 | H2]%orb_true_iff.
  - rewrite H1. destruct (Js.last_member k o); eauto.
  - destruct (IH H2) as [v ->]. eauto.
Qed.

Lemma replace_own_keys k v o : (Js.replace_own k v o).*1 = o.*1.
Proof.
  induction o as [| [k' v'] o IH]; cbn; [reflexivity |]. now rewrite IH.
Qed.

Lemma last_member_replace_own k v o k' :
  Js.last_member k' (Js.replace_own k v o)
  = if String.eqb k' k && Js.has_own k o then Some v else Js.last_member k' o.
Proof.
  induction o as [| [k0 v0] o IH]; cbn [Js.replace_own Js.last_member Js.has_own].
  - now rewrite andb_false_r.
  - rewrite IH. clear IH. destruct (String.eqb_spec k' k) as [E | Hne]; cbn [andb].
    + subst k'. destruct (Js.has_own k o) eqn:Hown.
      * now rewrite orb_true_r.
      * rewrite (has_own_lookup k o Hown), orb_false_r.
        now destruct (String.eqb k k0).
    + destruct (Js.last_member k' o); [reflexivity |].
      destruct (String.eqb_spec k' k0) as [-> | Hne0]; [| reflexivity].
      destruct (String.eqb_spec k k0); [congruence | reflexivity].
Qed.

Lemma last_member_insert_index n k v o k' :
  Js.has_own k o = false →
  Js.last_member k' (Js.insert_index n (k, v) o)
  = if String.eqb k' k then Some v else Js.last_member k' o.
Proof.
  intros Hown.
  assert (Hhead : ∀ o', Js.has_own k o' = false →
            Js.last_member k' ((k, v) :: o')
            = if String.eqb k' k then Some v else Js.last_member k' o').
  { intros o' Ho'. cbn [Js.last_member].
    destruct (String.eqb_spec k' k) as [-> | Hne].
    - now rewrite (has_own_lookup k o' Ho').
    - now destruct (Js.last_member k' o'). }
  induction o as [| [k0 v0] o IH]; cbn [Js.insert_index].
  - now apply Hhead.
  - destruct (Js.array_index k0) as [n0 |]; [| now apply Hhead].
    destruct (n0 <? n); [| now apply Hhead].
    cbn [Js.has_own] in Hown. apply orb_false_iff in Hown as [Hk0 Hown].
    cbn [Js.last_member]. rewrite (IH Hown).
    destruct (String.eqb_spec k' k) as [-> | Hne]; [reflexivity |].
    reflexivity.
Qed.

Lemma last_member_define k v o k' :
  Js.last_member k' (Js.define k v o)
  = if String.eqb k' k then Some v else Js.last_member k' o.
Proof.
  unfold Js.define. destruct (Js.has_own k o) eqn:Hown.
  - rewrite last_member_replace_own, Hown, andb_true_r. reflexivity.
  - destruct (Js.array_index k) as [n |].
    + now apply last_member_insert_index.
    + apply last_member_snoc.
Qed.

Lemma mapping_define k v o :
  Js.mapping (Js.define k v o) = <[k := v]> (Js.mapping o).
Proof.
  apply map_eq. intros k'. rewrite mapping_lookup, last_member_define.
  destruct (String.eqb_spec k' k) as [-> | Hne].
  - now rewrite lookup_insert_eq.
  - rewrite lookup_insert_ne by congruence. now rewrite mapping_lookup.
Qed.

Lemma object_of_snoc members k v :
  Js.object_of (members ++ [(k, v)]) = Js.define k v (Js.object_of members).
Proof. unfold Js.object_of. now rewrite foldl_app. Qed.

(** Building the object does not change what a lookup finds. *)
Lemma mapping_object_of members :
  Js.mapping (Js.object_of members) = Js.mapping members.
Proof.
  induction members as [| [k v] members IH] using rev_ind; [reflexivity |].
  now rewrite object_of_snoc, mapping_define, mapping_snoc, IH.
Qed.

(** *** The order of the keys *)

Lemma array_index_canonical k n : Js.array_index k = Some n → k = Js.decimal n.
Proof.
  unfold Js.array_index. destruct k as [| c k]; [discriminate |].
  destruct (Js.digits 0 (String c k)) as [m |]; [| discriminate].
  destruct (String.eqb_spec (Js.decimal m) (String c k)) as [E |]; [| discriminate].
  cbn [andb]. destruct (m <? 4294967295); [| discriminate].
  now intros [= <-].
Qed.

Lemma array_index_inj k1 k2 n :
  Js.array_index k1 = Some n → Js.array_index k2 = Some n → k1 = k2.
Proof.
  intros H1%array_index_canonical H2%array_index_canonical. congruence.
Qed.

Lemma ordered_keys_app ks1 ks2 :
  ordered_keys (ks1 ++ ks2)
  ↔ ordered_keys ks1 ∧ ordered_keys ks2
    ∧ Forall (fun a => Forall (key_before a) ks2) ks1.
Proof.
  induction ks1 as [| a ks1 IH]; cbn [app ordered_keys].
  - split; [intros H; repeat split; [assumption | constructor] | now intros (_ & H & _)].
  - rewrite IH, Forall_app, Forall_cons. tauto.
Qed.


Lemma ordered_replace_own k v o : ordered o → ordered (Js.replace_own k v o).
Proof. unfold ordered. now rewrite replace_own_keys. Qed.

Lemma insert_index_keys_Forall (P : string → Prop) n k v o :
  P k → Forall P (o.*1) → Forall P ((Js.insert_index n (k, v) o).*1).
Proof.
  intros Hk. induction o as [| [k0 v0] o IH]; cbn [Js.insert_index].
  - intros _. now constructor.
  - intros Ho. destruct (Js.array_index k0) as [n0 |]; [| now constructor].
    destruct (n0 <? n); [| now constructor].
    cbn [fmap list_fmap fst] in *. apply Forall_cons in Ho as [H0 Ho].
    constructor; [assumption | now apply IH].
Qed.

Lemma ordered_insert_index n k v o :
  Js.array_index k = Some n → Js.has_own k o = false →
  ordered o → ordered (Js.insert_index n (k, v) o).
Proof.
  intros Hk. unfold ordered.
  induction o as [| [k0 v0] o IH]; cbn [Js.insert_index Js.has_own].
  - intros _ _. cbn. split; constructor.
  - intros [Hk0 Hown]%orb_false_iff [Hhead Hrest].
    change (Forall (key_before k0) (o.*1)) in Hhead.
    change (ordered_keys (o.*1)) in Hrest.
    apply String.eqb_neq in Hk0.
    assert (Hfront : Forall (key_before k) (o.*1) → key_before k k0 →
                     ordered_keys (k :: k0 :: o.*1)).
    { intros H1 H2. cbn [ordered_keys]. repeat split; try assumption.
      now constructor. }
    assert (Hothers : Forall (fun k' => k' ≠ k) (o.*1)) by now apply has_own_false.
    destruct (Js.array_index k0) as [n0 |] eqn:E0.
    + destruct (n0 <? n) eqn:Hlt.
      * cbn [fmap list_fmap fst ordered_keys]. split; [| now apply IH].
        apply insert_index_keys_Forall; [| assumption].
        split; [congruence |]. rewrite E0, Hk. now apply Z.ltb_lt.
      * apply Z.ltb_ge in Hlt.
        assert (n < n0).
        { destruct (Z.eq_dec n n0) as [-> |]; [| lia].
          now elim Hk0; apply (array_index_inj k k0 n0). }
        apply Hfront.
        -- rewrite Forall_forall in Hhead, Hothers |- *. intros r Hr.
           specialize (Hhead r Hr) as [_ Hhead]. specialize (Hothers r Hr).
           split; [congruence |]. rewrite E0 in Hhead. rewrite Hk.
           destruct (Js.array_index r); [lia | exact I].
        -- split; [assumption |]. now rewrite Hk, E0.
    + apply Hfront.
      * rewrite Forall_forall in Hhead, Hothers |- *. intros r Hr.
        specialize (Hhead r Hr) as [_ Hhead]. specialize (Hothers r Hr).
        split; [congruence |]. rewrite E0 in Hhead. rewrite Hk.
        destruct (Js.array_index r); [contradiction | exact I].
      * split; [assumption |]. now rewrite Hk, E0.
Qed.

Lemma ordered_snoc k v o :
  Js.array_index k = None → Js.has_own k o = false →
  ordered o → ordered (o ++ [(k, v)]).
Proof.
  intros Hk Hown Ho. unfold ordered in *. rewrite fmap_app.
  apply ordered_keys_app. cbn [fmap list_fmap fst ordered_keys].
  split; [assumption |]. split; [split; [constructor | exact I] |].
  apply has_own_false in Hown. rewrite Forall_forall in Hown |- *.
  intros a Ha. constructor; [| constructor]. split; [now apply Hown |].
  rewrite Hk. now destruct (Js.array_index a).
Qed.

Lemma ordered_define k v o : ordered o → ordered (Js.define k v o).
Proof.
  intros Ho. unfold Js.define. destruct (Js.has_own k o) eqn:Hown.
  - now apply ordered_replace_own.
  - destruct (Js.array_index k) as [n |] eqn:Hk.
    + now apply ordered_insert_index.
    + now apply ordered_snoc.
Qed.

Lemma ordered_object_of members : ordered (Js.object_of members).
Proof.
  induction members as [| [k v] members IH] using rev_ind; [exact I |].
  rewrite object_of_snoc. now apply ordered_define.
Qed.

(** A property that comes last in the order is created by appending it. *)
Lemma define_last k v o :
  ordered (o ++ [(k, v)]) → Js.define k v o = (o ++ [(k, v)])%list.
Proof.
  unfold ordered. rewrite fmap_app. intros (_ & _ & Hall)%ordered_keys_app.
  assert (Hown : Js.has_own k o = false).
  { apply has_own_false. rewrite Forall_forall in Hall |- *. intros a Ha.
    specialize (Hall a Ha). apply Forall_cons in Hall as [[Hne _] _]. exact Hne. }
  unfold Js.define. rewrite Hown.
  destruct (Js.array_index k) as [n |] eqn:Hk; [| reflexivity].
  induction o as [| [k0 v0] o IH]; [reflexivity |].
  cbn [fmap list_fmap fst] in Hall. apply Forall_cons in Hall as [H0 Hall].
  apply Forall_cons in H0 as [[_ H0] _]. cbn [fst] in H0. rewrite Hk in H0.
  cbn [Js.insert_index]. cbn [Js.has_own] in Hown.
  apply orb_false_iff in Hown as [_ Hown].
  destruct (Js.array_index k0) as [n0 |]; [| contradiction].
  replace (n0 <? n) with true by (symmetry; now apply Z.ltb_lt).
  cbn [app]. f_equal. now apply IH.
Qed.

(** Parsing what was written gives the object that was written. *)
Lemma object_of_ordered o : ordered o → Js.object_of o = o.
Proof.
  intros Ho. unfold Js.object_of.
  enough (H : ∀ rest acc, ordered (acc ++ rest) →
                foldl (fun o kv => Js.define kv.1 kv.2 o) acc rest = (acc ++ rest)%list)
    by now apply (H o []).
  induction rest as [| [k v] rest IH]; intros acc Hacc; cbn [foldl fst snd].
  - now rewrite app_nil_r.
  - replace (acc ++ (k, v) :: rest)%list with ((acc ++ [(k, v)]) ++ rest)%list in *
      by now rewrite <- app_assoc.
    rewrite define_last; [now apply IH |].
    unfold ordered in *. rewrite fmap_app in Hacc.
    now apply ordered_keys_app in Hacc as (H & _).
Qed.

Lemma object_of_idempotent members :
  Js.object_of (Js.object_of members) = Js.object_of members.
Proof. apply object_of_ordered, ordered_object_of. Qed.

Lemma define_define k v1 v2 o :
  Js.define k v2 (Js.define k v1 o) = Js.define k v2 o.
Proof.
  assert (Hrep : ∀ o', Js.replace_own k v2 (Js.replace_own k v1 o')
                       = Js.replace_own k v2 o').
  { induction o' as [| [k0 v0] o' IH]; cbn [Js.replace_own]; [reflexivity |].
    rewrite IH. now destruct (String.eqb k k0). }
  assert (Hkeep : ∀ o', Js.has_own k (Js.replace_own k v1 o') = Js.has_own k o').
  { induction o' as [| [k0 v0] o' IH]; cbn [Js.replace_own Js.has_own]; [reflexivity |].
    now rewrite IH. }
  assert (Hfresh : ∀ o', Js.has_own k o' = false → Js.replace_own k v2 o' = o').
  { induction o' as [| [k0 v0] o' IH]; cbn [Js.replace_own Js.has_own]; [reflexivity |].
    intros [H1 H2]%orb_false_iff. now rewrite H1, IH. }
  unfold Js.define at 2 3. destruct (Js.has_own k o) eqn:Hown.
  - unfold Js.define. now rewrite Hkeep, Hown, Hrep.
  - unfold Js.define. destruct (Js.array_index k) as [n |] eqn:Hk.
    + assert (Hnow : ∀ o', Js.has_own k o' = false →
                Js.has_own k (Js.insert_index n (k, v1) o') = true
                ∧ Js.replace_own k v2 (Js.insert_index n (k, v1) o')
                  = Js.insert_index n (k, v2) o').
      { induction o' as [| [k0 v0] o' IH]; cbn [Js.insert_index Js.has_own].
        - intros _. cbn. now rewrite String.eqb_refl.
        - intros [H1 H2]%orb_false_iff.
          assert (Hhead : Js.has_own k ((k, v1) :: (k0, v0) :: o') = true
                          ∧ Js.replace_own k v2 ((k, v1) :: (k0, v0) :: o')
                            = (k, v2) :: (k0, v0) :: o').
          { cbn [Js.has_own Js.replace_own]. rewrite String.eqb_refl, H1.
            now rewrite (Hfresh o' H2). }
          destruct (Js.array_index k0) as [n0 |]; [| exact Hhead].
          destruct (n0 <? n); [| exact Hhead].
          destruct (IH H2) as [Ha Hb].
          cbn [Js.has_own Js.replace_own]. now rewrite Ha, Hb, H1, orb_true_r. }
      destruct (Hnow o Hown) as [-> ->]. reflexivity.
    + assert (Hnow : ∀ o', Js.has_own k o' = false →
                Js.has_own k (o' ++ [(k, v1)]) = true
                ∧ Js.replace_own k v2 (o' ++ [(k, v1)]) = (o' ++ [(k, v2)])%list).
      { induction o' as [| [k0 v0] o' IH]; cbn [app Js.has_own Js.replace_own].
        - intros _. now rewrite String.eqb_refl.
        - intros [H1 H2]%orb_false_iff. destruct (IH H2) as [Ha Hb].
          now rewrite Ha, Hb, H1, orb_true_r. }
      destruct (Hnow o Hown) as [-> ->]. reflexivity.
Qed.

Lemma has_own_define k v o k' :
  Js.has_own k' (Js.define k v o) = String.eqb k' k || Js.has_own k' o.
Proof.
  destruct (Js.has_own k' (Js.define k v o)) eqn:E.
  - apply has_own_member in E as [x Hx]. rewrite last_member_define in Hx.
    destruct (String.eqb k' k); [reflexivity |]. cbn [orb].
    destruct (Js.has_own k' o) eqn:E'; [reflexivity |].
    now rewrite (has_own_lookup k' o E') in Hx.
  - apply has_own_lookup in E. rewrite last_member_define in E.
    destruct (String.eqb k' k); [discriminate |]. cbn [orb].
    destruct (Js.has_own k' o) eqn:E'; [| reflexivity].
    apply has_own_member in E' as [x Hx]. congruence.
Qed.

(** *** The runtime's form of a value *)

(** Induction on a JSON value with the items and members at hand. *)
Lemma json_nested_ind (P : json → Prop) :
  P JNull → (∀ b, P (JBool b)) → (∀ n, P (JNum n)) → (∀ s, P (JStr s)) →
  (∀ items, Forall P items → P (JArr items)) →
  (∀ members, Forall (fun kv => P kv.2) members → P (JObj members)) →
  ∀ x, P x.
Proof.
  intros Hnull Hbool Hnum Hstr Harr Hobj.
  fix IH 1. intros [| b | n | s | items | members].
  - exact Hnull.
  - apply Hbool.
  - apply Hnum.
  - apply Hstr.
  - apply Harr. induction items as [| x items IHitems]; constructor.
    + apply IH.
    + exact IHitems.
  - apply Hobj. induction members as [| [k x] members IHmembers]; constructor.
    + apply IH.
    + exact IHmembers.
Qed.

Section Values.

Variable f : json → json.

Let on_values (o : list (string * json)) : list (string * json) :=
  List.map (fun kv => (kv.1, f kv.2)) o.

Lemma on_values_keys o : (on_values o).*1 = o.*1.
Proof. induction o as [| [k v] o IH]; cbn; [reflexivity |]. now rewrite <- IH. Qed.

Lemma has_own_on_values k o : Js.has_own k (on_values o) = Js.has_own k o.
Proof.
  induction o as [| [k' v'] o IH]; cbn [on_values List.map Js.has_own fst];
    [reflexivity |].
  fold (on_values o). now rewrite IH.
Qed.

Lemma replace_own_on_values k v o :
  Js.replace_own k (f v) (on_values o) = on_values (Js.replace_own k v o).
Proof.
  induction o as [| [k' v'] o IH];
    cbn [on_values List.map Js.replace_own fst snd]; [reflexivity |].
  fold (on_values o) (on_values (Js.replace_own k v o)). rewrite IH.
  now destruct (String.eqb k k').
Qed.

Lemma insert_index_on_values n k v o :
  Js.insert_index n (k, f v) (on_values o) = on_values (Js.insert_index n (k, v) o).
Proof.
  induction o as [| [k' v'] o IH];
    cbn [on_values List.map Js.insert_index fst snd]; [reflexivity |].
  fold (on_values o). destruct (Js.array_index k') as [n' |]; [| reflexivity].
  destruct (n' <? n); [| reflexivity].
  cbn [List.map fst snd]. fold (on_values (Js.insert_index n (k, v) o)).
  now rewrite IH.
Qed.

Lemma define_on_values k v o :
  Js.define k (f v) (on_values o) = on_values (Js.define k v o).
Proof.
  unfold Js.define. rewrite has_own_on_values.
  destruct (Js.has_own k o); [apply replace_own_on_values |].
  destruct (Js.array_index k) as [n |]; [apply insert_index_on_values |].
  unfold on_values. now rewrite List.map_app.
Qed.

Lemma object_of_on_values members :
  Js.object_of (on_values members) = on_values (Js.object_of members).
Proof.
  induction members as [| [k v] members IH] using rev_ind; [reflexivity |].
  unfold on_values at 1. rewrite List.map_app. cbn [List.map fst snd].
  fold (on_values members).
  now rewrite !object_of_snoc, IH, define_on_values.
Qed.

Lemma ordered_on_values o : ordered (on_values o) ↔ ordered o.
Proof. unfold ordered. now rewrite on_values_keys. Qed.

End Values.

Lemma normal_idempotent v : Js.normal (Js.normal v) = Js.normal v.
Proof.
  induction v as [| b | n | s | items IH | members IH] using json_nested_ind;
    try reflexivity; cbn [Js.normal].
  - f_equal. rewrite List.map_map. apply List.map_ext_Forall. exact IH.
  - rewrite <- (object_of_on_values Js.normal), List.map_map, object_of_idempotent.
    assert (Hsame : List.map (fun x => ((x.1, Js.normal x.2).1,
                                        Js.normal (x.1, Js.normal x.2).2)) members
                    = List.map (fun kv => (kv.1, Js.normal kv.2)) members).
    { apply List.map_ext_Forall.
      eapply Forall_impl; [exact IH |]. intros [k v] Hv. cbn in *. now rewrite Hv. }
    now rewrite Hsame.
Qed.

(** An object in the runtime's form: its keys are in order and its
    values are in that form. *)
Lemma normal_object o :
  Js.normal (JObj o) = JObj o →
  ordered o ∧ List.map (fun kv => (kv.1, Js.normal kv.2)) o = o.
Proof.
  cbn [Js.normal]. intros [= H].
  assert (Hord : ordered o) by (rewrite <- H; apply ordered_object_of).
  split; [exact Hord |].
  rewrite object_of_ordered in H; [exact H |].
  now apply ordered_on_values.
Qed.

Lemma normal_define k r o :
  Js.normal (JObj o) = JObj o →
  Js.normal (JObj (Js.define k r o)) = JObj (Js.define k (Js.normal r) o).
Proof.
  intros [Hord Hval]%normal_object. cbn [Js.normal].
  rewrite <- define_on_values, Hval.
  now rewrite object_of_ordered by now apply ordered_define.
Qed.

Lemma normal_set_item n r items :
  List.map Js.normal (Js.set_item n r items)
  = Js.set_item n (Js.normal r) (List.map Js.normal items).
Proof.
  unfold Js.set_item. rewrite List.length_map.
  destruct (n <? length items)%nat.
  - apply (list_fmap_insert Js.normal).
  - rewrite !List.map_app. cbn [List.map]. f_equal. f_equal.
    induction (n - length items)%nat as [| m IH]; [reflexivity |].
    cbn. now rewrite IH.
Qed.

(** The runtime's form of the outcome of an assignment is the outcome
    of assigning the value in that form. *)
Lemma normal_assign v k r t :
  Js.normal v = v →
  Js.assign v k r = Val t →
  Js.assign v k (Js.normal r) = Val (Js.normal t).
Proof.
  intros Hv. destruct v as [| b | n | s | items | o]; cbn [Js.assign]; try discriminate.
  - destruct (String.eqb k "__proto__"); now intros [= <-].
  - destruct (String.eqb k "__proto__"); now intros [= <-].
  - destruct (String.eqb k "__proto__"); now intros [= <-].
  - injection Hv as Hitems.
    destruct (Js.array_index k) as [n |].
    + intros [= <-]. cbn [Js.normal]. now rewrite normal_set_item, Hitems.
    + destruct (String.eqb k "length"); intros [= <-]. cbn [Js.normal].
      now rewrite Hitems.
  - destruct (_ && _); intros [= <-].
    + now rewrite Hv.
    + now rewrite normal_define.
Qed.

End Objects.

(** ** Every step of an account's pass contains its errors *)

Section Containment.

Context {platform : Platform} (env : environment).

(** A [try] around a computation that does not throw changes nothing. *)
Lemma try_catch_id {A} (m : M A) h w :
  (∀ e, fst (m w) ≠ Raised e) → Monad.try_catch m h w = m w.
Proof.
  intros H. unfold Monad.try_catch.
  destruct (m w) as [[a | e | ] w'] eqn:E; try reflexivity.
  now elim (H e).
Qed.

Lemma upgradeModel_safe tok l : safe (upgradeModel env tok l).
Proof. unfold upgradeModel. auto with safe. Qed.

Lemma checkAndUpgradeModel_safe tok p l : safe (checkAndUpgradeModel env tok p l).
Proof. unfold checkAndUpgradeModel. auto with safe. Qed.

Lemma getHomeData_safe steps tok up : safe (getHomeData env steps tok up).
Proof. unfold getHomeData. auto with safe. Qed.

Lemma completeTask_safe tok id msg : safe (completeTask env tok id msg).
Proof. unfold completeTask. auto with safe. Qed.

Lemma getTasks_safe tok : safe (getTasks env tok).
Proof. unfold getTasks. auto with safe. Qed.

Lemma loginToPinaiAPI_safe line : safe (loginToPinaiAPI env line).
Proof. unfold loginToPinaiAPI. auto with safe. Qed.

Lemma isExpired_safe tok : safe (isExpired env tok).
Proof. unfold isExpired. auto with safe. Qed.

Lemma saveToken_safe uid tok : safe (saveToken uid tok).
Proof. unfold saveToken. auto with safe. Qed.

(** A claim answered with 200 but without a "Telegram" count ends the
    loop by a [TypeError], which [collectCoins] logs. *)
Lemma collectCoins_no_telegram steps tok c w d :
  0 < coin_count c →
  net env (trace w) (claim_request tok (coin_type c) (coin_count c)) = Response 200 d →
  reported d = None →
  collectCoins env (S steps) tok c w
  = (Done tt,
     record (Logged Error (CollectError TypeError))
       (record (Sent (claim_request tok (coin_type c) (coin_count c))) w)).
Proof.
  intros Hpos Hnet Hrep. unfold collectCoins.
  erewrite try_raised; [reflexivity |].
  erewrite bind_raised; [reflexivity |].
  rewrite collect_loop_step by assumption. cbn zeta.
  now rewrite Hnet, Hrep.
Qed.

(** After the home state is logged and the claim loop has run, however
    it ended, the upgrade check is next. *)
Lemma getHomeData_goes_on steps tok w h m cs c :
  net env (trace w) (Get Home (ApiService.bearer (Some tok))) = Response 200 (HomeBody h) →
  current_model h = Some m →
  coins h = Some cs →
  List.find is_telegram cs = Some c →
  0 < coin_count c →
  getHomeData env steps tok true w =
    let w1 := record (Logged Info (Balance (pin_points h)))
                (record (Logged Info (DataPower (data_power h)))
                   (record (Logged Info (CurrentLevel (current_level m)))
                      (record (Logged Info (CurrentModel (name m)))
                         (record (Sent (Get Home (ApiService.bearer (Some tok)))) w)))) in
    match collectCoins env steps tok c w1 with
    | (OutOfFuel, w2) => (OutOfFuel, w2)
    | (_, w2) => checkAndUpgradeModel env tok (pin_points h) (current_level m) w2
    end.
Proof.
  intros Hnet Hm Hcs Hc Hpos. cbn zeta.
  unfold getHomeData, ApiService.get, ApiService.exchange, logHomeData. run_monad.
  rewrite Hnet. cbn [Z.eqb Pos.eqb Body.destructure_home]. rewrite Hm, Hcs, Hc.
  replace (0 <? coin_count c) with true by (symmetry; apply Z.ltb_lt; lia).
  match goal with |- context [collectCoins env steps tok c ?w1] =>
    pose proof (collectCoins_safe env steps tok c w1) as Hsafe;
    destruct (collectCoins env steps tok c w1) as [[[] | e | ] w2]
  end.
  - pose proof (checkAndUpgradeModel_safe tok (pin_points h) (current_level m) w2) as Hup.
    destruct (checkAndUpgradeModel env tok (pin_points h) (current_level m) w2)
      as [[[] | e | ] w3]; try reflexivity.
    now elim (Hup e).
  - now elim (Hsafe e).
  - reflexivity.
Qed.

End Containment.

#[export] Hint Resolve collectCoins_safe upgradeModel_safe checkAndUpgradeModel_safe
  getHomeData_safe completeTask_safe getTasks_safe loginToPinaiAPI_safe
  isExpired_safe saveToken_safe : safe.

(** ** The point-balance parser *)

Section ParsePoints.
Import JsString JsNumber PointsCalculator.

Lemma parsePoints_number x : parsePoints (PNum x) = Val x.
Proof. reflexivity. Qed.

(** Without a suffix the commas are stripped before the numeral is read. *)
Lemma parsePoints_plain s :
  includes "K" s = false → includes "M" s = false →
  parsePoints (PStr s) = Val (parseFloat (remove_all "," s)).
Proof. intros HK HM. unfold parsePoints. cbn. now rewrite HK, HM. Qed.

(** With a suffix the numeral is read from the string as given, commas
    included. *)
Lemma parsePoints_K s :
  includes "K" s = true →
  parsePoints (PStr s)
  = Val (parseFloat_number (PrimFloat.mul (parseFloat (replace "K" "" s)) 1000)).
Proof. intros HK. unfold parsePoints. cbn. now rewrite HK. Qed.

Lemma parsePoints_M s :
  includes "K" s = false → includes "M" s = true →
  parsePoints (PStr s)
  = Val (parseFloat_number (PrimFloat.mul (parseFloat (replace "M" "" s)) 1000000)).
Proof. intros HK HM. unfold parsePoints. cbn. now rewrite HK, HM. Qed.

End ParsePoints.

(** C5.  The parser reads "1,200", "5K" and "2.3M" as 1200, 5000 and
    2300000 and returns a number unchanged, but a string with both a comma
    and a suffix is not read as the comma-stripped numeral times the
    multiplier: for "1,200K" the numeral is read from the unstripped
    string and stops at the comma, so the result is 1000 where the
    comma-stripped numeral times 1000 is 1200000. *)
Theorem C5_comma_with_suffix :
  PointsCalculator.parsePoints (PStr "1,200") = Val 1200%float
  ∧ PointsCalculator.parsePoints (PStr "5K") = Val 5000%float
  ∧ PointsCalculator.parsePoints (PStr "2.3M") = Val 2300000%float
  ∧ PointsCalculator.parsePoints (PStr "1,200K") = Val 1000%float
  ∧ PrimFloat.mul (JsNumber.parseFloat (JsString.remove_all "," "1,200")) 1000
    = 1200000%float.
Proof. repeat split; vm_compute; reflexivity. Qed.

(** ** The claim loop and its caller *)

(** C4 (as amended).  In the claim loop, a claim answered with 200 sets
    the tracked count to the count the reply reports for the "Telegram"
    coin, whatever that count is; the loop ends when the tracked count is
    not positive, when a claim is answered with another status, or when a
    claim throws (the request is rejected, or the reply reports no
    "Telegram" count).  There is no cap on the number of claims: when
    every reported count is smaller than the count claimed, a loop started
    at [count] is over within [count] claims, and when the server keeps
    reporting a positive count the loop is never over. *)
Theorem C4_claim_loop (env : environment) (tok : json) (ty : string) :
  (∀ steps count w,
      count ≤ 0 → collect_loop env steps tok ty count w = (Done tt, w))
  ∧ (∀ steps count w,
      0 < count →
      collect_loop env (S steps) tok ty count w =
        let w1 := record (Sent (claim_request tok ty count)) w in
        match net env (trace w) (claim_request tok ty count) with
        | Rejected =>
            (Raised NetworkError,
             record (Logged Error (ApiPostError HomeCollect NetworkError)) w1)
        | Response st d =>
            if st =? 200 then
              match reported d with
              | Some c =>
                  let w2 := record (Logged Info (CoinsRemaining c)) w1 in
                  if c =? 0 then (Done tt, w2)
                  else collect_loop env steps tok ty c (record (Waited 2) w2)
              | None => (Raised TypeError, w1)
              end
            else (Done tt, w1)
        end)
  ∧ (decreasing env →
     ∀ steps count w,
       count ≤ Z.of_nat steps →
       fst (collect_loop env steps tok ty count w) ≠ OutOfFuel)
  ∧ (stubborn env →
     ∀ steps count w,
       0 < count → fst (collect_loop env steps tok ty count w) = OutOfFuel).
Proof.
  repeat split.
  - intros. now apply collect_loop_idle.
  - intros. now apply collect_loop_step.
  - intros. now apply collect_loop_terminates.
  - intros. now apply collect_loop_diverges.
Qed.

Lemma melting_decreasing : decreasing Scenario.melting.
Proof.
  intros h ty count t d c Hnet Hrep. cbn in Hnet.
  injection Hnet as <-. cbn in Hrep. injection Hrep as <-. lia.
Qed.

Lemma sticky_stubborn : stubborn Scenario.sticky.
Proof.
  intros h ty count t. eexists _, 7. cbn. repeat split; lia.
Qed.

Lemma C4_claim_loop_witness :
  fst (collect_loop Scenario.melting 3 Scenario.token "Telegram" 3 Scenario.start)
    ≠ OutOfFuel
  ∧ fst (collect_loop Scenario.sticky 3 Scenario.token "Telegram" 5 Scenario.start)
    = OutOfFuel.
Proof.
  split.
  - apply (C4_claim_loop Scenario.melting Scenario.token "Telegram");
      [exact melting_decreasing | cbn; lia].
  - apply (C4_claim_loop Scenario.sticky Scenario.token "Telegram");
      [exact sticky_stubborn | lia].
Defined.

(** C4 (counterexample).  Started at 5 against a server that answers every
    claim with 200 and 7 coins left, the first claim is successful and the
    tracked count goes up, from 5 to 7: the next claim asks for 7; after
    two claims the loop is still running. *)
Lemma C4_count_not_decreasing :
  let run := collect_loop Scenario.sticky 2 Scenario.token "Telegram" 5 Scenario.start in
  fst run = OutOfFuel
  ∧ requests (trace (snd run))
    = [claim_request Scenario.token "Telegram" 7;
       claim_request Scenario.token "Telegram" 5].
Proof. split; reflexivity. Qed.

(** C10.  [collectCoins] never lets an error out: whatever the server
    does, its outcome is not an exception.  In particular, when a claim is
    answered with 200 and a coin list without a "Telegram" entry, the
    [TypeError] is caught and logged, no further claim is sent and
    [collectCoins] returns normally.  [getHomeData] does not let an error
    out either, and once the claim loop has returned it goes on to the
    upgrade check. *)
Theorem C10_collectCoins_contains_errors (env : environment) (steps : nat)
    (tok : json) (c : coin) (w : world) :
  (∀ e, fst (collectCoins env steps tok c w) ≠ Raised e)
  ∧ (∀ d,
      0 < coin_count c →
      net env (trace w) (claim_request tok (coin_type c) (coin_count c))
        = Response 200 d →
      reported d = None →
      collectCoins env (S steps) tok c w
      = (Done tt,
         record (Logged Error (CollectError TypeError))
           (record (Sent (claim_request tok (coin_type c) (coin_count c))) w)))
  ∧ (∀ up e, fst (getHomeData env steps tok up w) ≠ Raised e)
  ∧ (∀ h m cs,
      net env (trace w) (Get Home (ApiService.bearer (Some tok))) = Response 200 (HomeBody h) →
      current_model h = Some m →
      coins h = Some cs →
      List.find is_telegram cs = Some c →
      0 < coin_count c →
      getHomeData env steps tok true w =
        let w1 := record (Logged Info (Balance (pin_points h)))
                    (record (Logged Info (DataPower (data_power h)))
                       (record (Logged Info (CurrentLevel (current_level m)))
                          (record (Logged Info (CurrentModel (name m)))
                             (record (Sent (Get Home (ApiService.bearer (Some tok)))) w)))) in
        match collectCoins env steps tok c w1 with
        | (OutOfFuel, w2) => (OutOfFuel, w2)
        | (_, w2) => checkAndUpgradeModel env tok (pin_points h) (current_level m) w2
        end).
Proof.
  repeat split.
  - intros e. apply collectCoins_safe.
  - intros d Hpos Hnet Hrep. now apply (collectCoins_no_telegram env steps tok c w d).
  - intros up e. apply getHomeData_safe.
  - intros h m cs Hnet Hm Hcs Hc Hpos.
    now apply (getHomeData_goes_on env steps tok w h m cs c).
Qed.

Lemma C10_collectCoins_contains_errors_witness :
  let c := Scenario.telegram 3 in
  let env := Scenario.service (PNum 0) 3 [] in
  collectCoins env 1 Scenario.token c Scenario.start
  = (Done tt,
     record (Logged Error (CollectError TypeError))
       (record (Sent (claim_request Scenario.token "Telegram" 3)) Scenario.start)).
Proof.
  intros c env.
  apply (C10_collectCoins_contains_errors env 0 Scenario.token c Scenario.start)
    with (d := CoinsBody (Some [{| coin_type := "Invite"; coin_count := 1 |}]));
    [cbn; lia | reflexivity | reflexivity].
Defined.

(** The whole home step against that server: the claim fails inside
    [collectCoins], and the cost table is fetched all the same. *)
Example home_step_survives_missing_coin :
  let env := Scenario.service (PNum 0) 3 [] in
  let run := getHomeData env 1 Scenario.token true Scenario.start in
  fst run = Done tt
  ∧ requests (trace (snd run))
    = [Get ModelList (Some Scenario.token);
       claim_request Scenario.token "Telegram" 3;
       Get Home (Some Scenario.token)]
  ∧ logged Error (trace (snd run)) = [CollectError TypeError].
Proof. repeat split; reflexivity. Qed.

(** ** The task loop *)

Section Tasks.

Context (env : environment) (tok : json).

Local Abbreviation planned := (complete_planned env tok).

Lemma for_each_single {A} (f : A → M unit) x w :
  Monad.for_each f [x] w = f x w.
Proof.
  cbn [Monad.for_each]. run_monad.
  destruct (f x w) as [[[] | e | ] w']; reflexivity.
Qed.

Lemma handle_task_completion t w :
  has_checkin_detail t →
  handle_task env tok t w = Monad.for_each planned (completion t) w.
Proof.
  intros Hdetail. unfold handle_task, completion, has_checkin_detail in *.
  destruct (task_id t =? 1001) eqn:Hid.
  - apply Z.eqb_eq in Hid.
    destruct (checkin_detail t) as [d |]; [| now elim (Hdetail Hid)].
    run_monad. cbn [andb].
    destruct (is_today_checkin d =? 0).
    + now rewrite for_each_single.
    + destruct (negb (is_complete t)); [now rewrite for_each_single | reflexivity].
  - run_monad. cbn [andb].
    destruct (negb (is_complete t)); [now rewrite for_each_single | reflexivity].
Qed.

Lemma task_loop_completions ts w :
  Forall has_checkin_detail ts →
  Monad.for_each (handle_task env tok) ts w
  = Monad.for_each planned (completions ts) w.
Proof.
  intros Hall. revert w. induction Hall as [| t ts Ht _ IH]; intros w.
  - reflexivity.
  - unfold completions. cbn [flat_map Monad.for_each].
    rewrite for_each_app. run_monad.
    rewrite (handle_task_completion t w Ht).
    destruct (Monad.for_each planned (completion t) w)
      as [[[] | e | ] w']; try reflexivity.
    apply IH.
Qed.

Lemma complete_planned_safe p : safe (planned p).
Proof. apply completeTask_safe. Qed.

Lemma getTasks_completions ts w :
  net env (trace w) (Get TaskList (ApiService.bearer (Some tok)))
    = Response 200 (TaskListBody (Some ts)) →
  Forall has_checkin_detail ts →
  getTasks env tok w
  = Monad.for_each planned (completions ts)
      (record (Sent (Get TaskList (ApiService.bearer (Some tok)))) w).
Proof.
  intros Hnet Hall. unfold getTasks.
  rewrite try_catch_id.
  - unfold ApiService.get, ApiService.exchange. run_monad. rewrite Hnet.
    cbn [Z.eqb Pos.eqb Body.tasks]. now apply task_loop_completions.
  - intros e. unfold ApiService.get, ApiService.exchange. run_monad. rewrite Hnet.
    cbn [Z.eqb Pos.eqb Body.tasks]. rewrite task_loop_completions by assumption.
    apply safe_for_each. apply complete_planned_safe.
Qed.

End Tasks.

(** C1 (as amended).  When the task list is fetched and every task with
    id 1001 carries its [checkin_detail], the task loop issues exactly the
    calls of [completions], in list order, whatever the server answers to
    each of them: the task with id 1001 is completed with the check-in
    message when [is_today_checkin] is 0, whatever its [is_complete]; any
    other task, and also the task with id 1001 when [is_today_checkin] is
    not 0, is completed with the generic reward message exactly when its
    [is_complete] is false. *)
Theorem C1_task_completion (env : environment) (tok : json)
    (ts : list task) (w : world) :
  net env (trace w) (Get TaskList (ApiService.bearer (Some tok)))
    = Response 200 (TaskListBody (Some ts)) →
  Forall has_checkin_detail ts →
  getTasks env tok w
  = Monad.for_each (complete_planned env tok) (completions ts)
      (record (Sent (Get TaskList (ApiService.bearer (Some tok)))) w)
  ∧ ∀ t, In t ts →
      completion t =
        if (task_id t =? 1001)
        then match checkin_detail t with
             | Some d =>
                 if is_today_checkin d =? 0 then [(1001, DailyCheckin)]
                 else if is_complete t then []
                      else [(1001, TaskReward (task_name t) (reward_points t))]
             | None => []
             end
        else if is_complete t then []
             else [(task_id t, TaskReward (task_name t) (reward_points t))].
Proof.
  intros Hnet Hall. split; [now apply getTasks_completions |].
  intros t Hin. rewrite Forall_forall in Hall. specialize (Hall t).
  unfold completion, has_checkin_detail in *.
  destruct (task_id t =? 1001) eqn:Hid; cbn [andb].
  - apply Z.eqb_eq in Hid. rewrite Hid.
    destruct (checkin_detail t) as [d |].
    + destruct (is_today_checkin d =? 0); [reflexivity |].
      now destruct (is_complete t).
    + exfalso. apply Hall; [| assumption | reflexivity].
      apply list_elem_of_In. exact Hin.
  - now destruct (is_complete t).
Qed.

Lemma C1_task_completion_witness :
  let env := Scenario.service (PNum 0) 0
               [Scenario.checkin_task 0 true; Scenario.plain_task 7 false] in
  getTasks env Scenario.token Scenario.start
  = Monad.for_each (complete_planned env Scenario.token)
      [(1001, DailyCheckin); (7, TaskReward "Follow" 50)]
      (record (Sent (Get TaskList (Some Scenario.token))) Scenario.start).
Proof.
  intros env.
  apply (C1_task_completion env Scenario.token
           [Scenario.checkin_task 0 true; Scenario.plain_task 7 false]
           Scenario.start).
  - reflexivity.
  - repeat constructor; unfold has_checkin_detail; cbn; congruence.
Defined.

(** C1 (counterexample).  The task with id 1001 arrives with
    [is_today_checkin] 1 and [is_complete] false: it is completed all the
    same, through the [is_complete] branch and with the generic reward
    message. *)
Lemma C1_checkin_task_through_is_complete :
  let t := Scenario.checkin_task 1 false in
  let env := Scenario.service (PNum 0) 0 [t] in
  let run := getTasks env Scenario.token Scenario.start in
  (is_today_checkin <$> checkin_detail t) = Some 1
  ∧ requests (trace (snd run))
    = [Post (TaskComplete 1001) EmptyData (Some Scenario.token);
       Get TaskList (Some Scenario.token)]
  ∧ logged Info (trace (snd run)) = [TaskDone (TaskReward "Daily check-in" 10)].
Proof. repeat split; reflexivity. Qed.

(** A check-in task without [checkin_detail] ends the loop: the tasks
    after it are not looked at. *)
Example task_loop_stops_without_detail :
  let t := {| task_id := 1001; task_name := "Daily check-in"; is_complete := false;
              reward_points := 10; checkin_detail := None |} in
  let env := Scenario.service (PNum 0) 0 [t; Scenario.plain_task 7 false] in
  let run := getTasks env Scenario.token Scenario.start in
  fst run = Done tt
  ∧ requests (trace (snd run)) = [Get TaskList (Some Scenario.token)]
  ∧ logged Error (trace (snd run)) = [TasksError TypeError].
Proof. repeat split; reflexivity. Qed.

(** ** The upgrade check *)

Section Upgrade.

Context (env : environment) (tok : json).

Lemma upgradeModel_run l w :
  upgradeModel env tok l w =
    let w1 := record (Sent (upgrade_request tok)) w in
    match net env (trace w) (upgrade_request tok) with
    | Rejected =>
        (Done tt,
         record (Logged Error (UpgradeError NetworkError))
           (record (Logged Error (ApiPostError ModelUpgrade NetworkError)) w1))
    | Response st _ =>
        (Done tt, if st =? 200 then record (Logged Info (ModelUpgraded l)) w1 else w1)
    end.
Proof.
  unfold upgradeModel, upgrade_request, ApiService.post, ApiService.exchange. run_monad.
  destruct (net env (trace w) _) as [| st d]; [reflexivity |].
  now destruct (st =? 200).
Qed.

Lemma upgradeModel_requests l w :
  requests (trace (snd (upgradeModel env tok l w)))
  = upgrade_request tok :: requests (trace w).
Proof.
  rewrite upgradeModel_run. cbn zeta.
  destruct (net env (trace w) _) as [| st d]; [reflexivity |].
  now destruct (st =? 200).
Qed.

Lemma upgradeModel_warnings l w :
  logged Warn (trace (snd (upgradeModel env tok l w))) = logged Warn (trace w).
Proof.
  rewrite upgradeModel_run. cbn zeta.
  destruct (net env (trace w) _) as [| st d]; [reflexivity |].
  now destruct (st =? 200).
Qed.

Lemma checkAndUpgradeModel_run pts lvl w :
  checkAndUpgradeModel env tok pts lvl w =
    let w1 := record (Sent (cost_request tok)) w in
    match net env (trace w) (cost_request tok) with
    | Rejected =>
        (Done tt,
         record (Logged Error (UpgradeCheckError NetworkError))
           (record (Logged Error (ApiGetError ModelList NetworkError)) w1))
    | Response st d =>
        if st =? 200 then
          match Body.cost_config d with
          | Val (Some cfg) =>
              match List.find (fun config => level config =? lvl + 1) cfg with
              | Some entry =>
                  match PointsCalculator.parsePoints pts with
                  | Val p =>
                      if PrimFloat.leb (cost entry) p
                      then upgradeModel env tok (lvl + 1) w1
                      else (Done tt, record (Logged Warn (InsufficientBalance (lvl + 1))) w1)
                  | Throw e => (Done tt, record (Logged Error (UpgradeCheckError e)) w1)
                  end
              | None => (Done tt, w1)
              end
          | _ => (Done tt, record (Logged Error (UpgradeCheckError TypeError)) w1)
          end
        else (Done tt, w1)
    end.
Proof.
  unfold checkAndUpgradeModel, cost_request, ApiService.get, ApiService.exchange. run_monad.
  destruct (net env (trace w) _) as [| st d]; [reflexivity |].
  destruct (st =? 200); [| reflexivity].
  destruct (Body.cost_config d) as [[cfg |] | e] eqn:E; try reflexivity.
  - destruct (find _ cfg) as [entry |]; [| reflexivity].
    destruct (PointsCalculator.parsePoints pts) as [p | e]; [| reflexivity].
    destruct (PrimFloat.leb (cost entry) p); [| reflexivity].
    pose proof (upgradeModel_safe env tok (lvl + 1)
                  (record (Sent (Get ModelList (ApiService.bearer (Some tok)))) w)) as Hs.
    destruct (upgradeModel env tok (lvl + 1) _) as [[[] | e | ] w2]; try reflexivity.
    now elim (Hs e).
  - destruct d; try discriminate. now injection E as <-.
Qed.

End Upgrade.

(** C8.  The upgrade check sends the upgrade request if and only if the
    cost table has an entry for [currentLevel + 1] and the parsed balance
    is at least its cost.  When there is no such entry nothing more is
    sent and no warning is logged; when there is one and the parsed
    balance is below its cost, the warning is logged and nothing more is
    sent. *)
Theorem C8_upgrade_decision (env : environment) (tok : json) (pts : points)
    (lvl : Z) (w : world) :
  let r := net env (trace w) (cost_request tok) in
  let w' := snd (checkAndUpgradeModel env tok pts lvl w) in
  (requests (trace w') = upgrade_request tok :: cost_request tok :: requests (trace w)
   ↔ ∃ entry, next_level_cost r lvl = Some entry ∧ affordable entry pts = Some true)
  ∧ (next_level_cost r lvl = None →
     requests (trace w') = cost_request tok :: requests (trace w)
     ∧ logged Warn (trace w') = logged Warn (trace w))
  ∧ (∀ entry,
       next_level_cost r lvl = Some entry →
       affordable entry pts = Some false →
       requests (trace w') = cost_request tok :: requests (trace w)
       ∧ logged Warn (trace w')
         = InsufficientBalance (lvl + 1) :: logged Warn (trace w)).
Proof.
  cbn zeta. rewrite checkAndUpgradeModel_run. cbn zeta.
  unfold next_level_cost, affordable.
  destruct (net env (trace w) (cost_request tok)) as [| st d];
    [repeat split; try reflexivity; try discriminate; now intros (entry & H & _) |].
  destruct (st =? 200);
    [| repeat split; try reflexivity; try discriminate; now intros (entry & H & _)].
  destruct (Body.cost_config d) as [[cfg |] | e];
    [| repeat split; try reflexivity; try discriminate; now intros (entry & H & _) ..].
  destruct (find _ cfg) as [entry |];
    [| repeat split; try reflexivity; try discriminate; now intros (entry & H & _)].
  destruct (PointsCalculator.parsePoints pts) as [p | e];
    [| repeat split; try reflexivity; try discriminate; now intros (entry' & _ & H)].
  destruct (PrimFloat.leb (cost entry) p) eqn:Hle.
  - repeat split; try discriminate;
      try match goal with
          | H1 : Some entry = Some ?e, H2 : Some _ = Some false |- _ =>
              injection H1 as <-; rewrite Hle in H2; discriminate
          end.
    + intros _. exists entry. now rewrite Hle.
    + intros _. now rewrite upgradeModel_requests.
  - repeat split; try discriminate; try reflexivity.
    intros (entry' & [= <-] & H). now rewrite Hle in H.
Qed.

Lemma C8_upgrade_decision_witness :
  let env := Scenario.service (PStr "5K") 0 [] in
  let w' := snd (checkAndUpgradeModel env Scenario.token (PStr "5K") 1 Scenario.start) in
  requests (trace w') = cost_request Scenario.token :: requests (trace Scenario.start)
  ∧ logged Warn (trace w')
    = InsufficientBalance (1 + 1) :: logged Warn (trace Scenario.start).
Proof.
  intros env w'.
  apply (C8_upgrade_decision env Scenario.token (PStr "5K") 1 Scenario.start)
    with (entry := {| level := 2; cost := 1000000%float |}); reflexivity.
Defined.

(** The balance "1,200K" against a level-2 cost of 1000000: the parser
    yields 1000, so the check warns and does not upgrade. *)
Example upgrade_check_on_comma_suffix :
  let env := Scenario.service (PStr "1,200K") 0 [] in
  let run := checkAndUpgradeModel env Scenario.token (PStr "1,200K") 1 Scenario.start in
  requests (trace (snd run)) = [cost_request Scenario.token]
  ∧ logged Warn (trace (snd run)) = [InsufficientBalance 2].
Proof. split; reflexivity. Qed.

Example upgrade_check_affordable :
  let env := Scenario.service (PStr "2.3M") 0 [] in
  let run := checkAndUpgradeModel env Scenario.token (PStr "2.3M") 1 Scenario.start in
  requests (trace (snd run)) = [upgrade_request Scenario.token; cost_request Scenario.token]
  ∧ logged Warn (trace (snd run)) = []
  ∧ logged Info (trace (snd run)) = [ModelUpgraded 2].
Proof. repeat split; reflexivity. Qed.
(** ** The credential store *)

Section Store.

Lemma loadTokens_run w :
  ∃ w', loadTokens w = (Done (loaded w), w')
        ∧ token_file w' = token_file w ∧ writable w' = writable w.
Proof.
  unfold loadTokens, loaded.
  destruct (token_file w) as [[| value] |] eqn:E;
    (eexists; split; [reflexivity | split; [cbn; congruence | reflexivity]]).
Qed.

(** What [loadTokens] returns is in the runtime's form. *)
Lemma normal_loaded w : Js.normal (loaded w) = loaded w.
Proof.
  unfold loaded. destruct (token_file w) as [[| value] |]; try reflexivity.
  apply normal_idempotent.
Qed.

Lemma loaded_ordered w o : loaded w = JObj o → ordered o.
Proof.
  intros Ho. pose proof (normal_loaded w) as H. rewrite Ho in H.
  now apply normal_object in H.
Qed.

Lemma loaded_stored w o : loaded w = JObj o → Js.mapping o = stored w.
Proof. intros Ho. unfold stored. now rewrite Ho. Qed.

Lemma object_store_records w :
  object_store w → Js.records (loaded w) = Some (stored w).
Proof.
  unfold object_store, stored. now destruct (loaded w) as [| | | | | o].
Qed.

Lemma normal_token_record tok :
  Js.normal (token_record tok) = token_record (Js.normal tok).
Proof. reflexivity. Qed.

(** Whether an assignment goes through depends on the target and the
    key, not on the value. *)
Lemma assign_defined v k r1 r2 t :
  Js.assign v k r1 = Val t → ∃ t', Js.assign v k r2 = Val t'.
Proof.
  destruct v as [| b | n | s | items | o]; cbn [Js.assign]; try discriminate.
  - destruct (String.eqb k "__proto__"); [eauto | discriminate].
  - destruct (String.eqb k "__proto__"); [eauto | discriminate].
  - destruct (String.eqb k "__proto__"); [eauto | discriminate].
  - destruct (Js.array_index k); [eauto |].
    destruct (String.eqb k "length"); [discriminate | eauto].
  - destruct (_ && _); eauto.
Qed.

Lemma assign_throws v k r1 r2 e :
  Js.assign v k r1 = Throw e → Js.assign v k r2 = Throw e.
Proof.
  intros H. destruct (Js.assign v k r2) as [t | e'] eqn:E.
  - destruct (assign_defined v k r2 r1 t E) as [t' Ht']. congruence.
  - revert H E. destruct v as [| b | n | s | items | o]; cbn [Js.assign];
      repeat match goal with
             | |- context [if ?c then _ else _] => destruct c
             | |- context [match ?c with Some _ => _ | None => _ end] => destruct c
             end; congruence.
Qed.

(** The whole of [saveToken]: read, assign, write, report. *)
Lemma saveToken_run uid tok w :
  saveToken uid tok w
  = let w0 := snd (loadTokens w) in
    match Js.assign (loaded w) (Js.to_key uid) (token_record tok) with
    | Val tokens =>
        if writable w
        then (Done tt, record (Logged Info (TokenSaved uid))
                         (mkWorld (Some (Document (Js.normal tokens))) true (trace w0)))
        else (Done tt, record (Logged Error (SaveTokenError IOError)) w0)
    | Throw e => (Done tt, record (Logged Error (SaveTokenError e)) w0)
    end.
Proof.
  destruct (loadTokens_run w) as (w1 & Hload & Hfile & Hwr).
  unfold saveToken, writeTokens. run_monad. rewrite Hload. cbn [snd].
  fold (token_record tok).
  destruct (Js.assign (loaded w) (Js.to_key uid) (token_record tok)) as [tokens | e];
    cbn; [| reflexivity].
  rewrite Hwr. now destruct (writable w).
Qed.


Lemma saveToken_writable uid tok w :
  writable (snd (saveToken uid tok w)) = writable w.
Proof.
  destruct (loadTokens_run w) as (w1 & Hload & Hfile & Hwr).
  rewrite saveToken_run, Hload. cbn zeta. cbn [snd].
  destruct (Js.assign _ _ _); [destruct (writable w) eqn:E |]; cbn; congruence.
Qed.

Lemma saveToken_file uid tok w :
  token_file (snd (saveToken uid tok w))
  = match Js.assign (loaded w) (Js.to_key uid) (token_record tok) with
    | Val tokens =>
        if writable w then Some (Document (Js.normal tokens)) else token_file w
    | Throw _ => token_file w
    end.
Proof.
  destruct (loadTokens_run w) as (w0 & Hload & Hfile & Hwr).
  rewrite saveToken_run, Hload. cbn zeta. cbn [snd].
  destruct (Js.assign _ _ _); [destruct (writable w) |]; cbn; congruence.
Qed.

(** What the next [loadTokens] returns after a save: the loaded value
    with the record, in the runtime's form, assigned. *)
Lemma saveToken_loaded uid tok w :
  loaded (snd (saveToken uid tok w))
  = if writable w
    then match Js.assign (loaded w) (Js.to_key uid) (token_record (Js.normal tok)) with
         | Val tokens => tokens
         | Throw _ => loaded w
         end
    else loaded w.
Proof.
  unfold loaded at 1. rewrite saveToken_file. fold (loaded w).
  destruct (Js.assign (loaded w) (Js.to_key uid) (token_record tok)) as [t | e] eqn:Ha.
  - rewrite <- normal_token_record.
    rewrite (normal_assign _ _ _ _ (normal_loaded w) Ha).
    destruct (writable w); [apply normal_idempotent | reflexivity].
  - rewrite (assign_throws _ _ _ (token_record (Js.normal tok)) _ Ha).
    now destruct (writable w).
Qed.

(** An assignment makes an object only of an object. *)
Lemma assign_object v k r o' :
  Js.assign v k r = Val (JObj o') →
  ∃ o, v = JObj o ∧ (o' = o ∨ o' = Js.define k r o).
Proof.
  destruct v as [| b | n | s | items | o]; cbn [Js.assign]; try discriminate.
  - destruct (String.eqb k "__proto__"); discriminate.
  - destruct (String.eqb k "__proto__"); discriminate.
  - destruct (String.eqb k "__proto__"); discriminate.
  - destruct (Js.array_index k); [discriminate |].
    destruct (String.eqb k "length"); discriminate.
  - destruct (_ && _); intros [= <-]; eauto.
Qed.

Lemma assign_not_object v k r t :
  match v with JObj _ => False | _ => True end →
  Js.assign v k r = Val t → members_of t = ∅.
Proof.
  destruct v as [| b | n | s | items | o]; cbn [Js.assign]; try easy.
  - destruct (String.eqb k "__proto__"); now intros _ [= <-].
  - destruct (String.eqb k "__proto__"); now intros _ [= <-].
  - destruct (String.eqb k "__proto__"); now intros _ [= <-].
  - destruct (Js.array_index k); [now intros _ [= <-] |].
    destruct (String.eqb k "length"); now intros _ [= <-].
Qed.


Lemma saveToken_stored uid tok w :
  writable w = true → object_store w → Js.to_key uid ≠ "__proto__" →
  stored (snd (saveToken uid tok w))
  = <[Js.to_key uid := token_record (Js.normal tok)]> (stored w).
Proof.
  intros Hw Hobj Hkey. unfold object_store in Hobj. unfold stored.
  rewrite saveToken_loaded, Hw.
  destruct (loaded w) as [| | | | | o] eqn:Ho; try easy.
  cbn [Js.assign]. apply String.eqb_neq in Hkey. rewrite Hkey. cbn [andb members_of].
  apply mapping_define.
Qed.

(** A save leaves the record under every other key as it was, whatever
    the file holds and whether or not the write succeeds. *)
Lemma saveToken_others uid tok w k :
  Js.to_key uid ≠ k →
  stored (snd (saveToken uid tok w)) !! k = stored w !! k.
Proof.
  intros Hne. unfold stored. rewrite saveToken_loaded.
  destruct (writable w); [| reflexivity].
  destruct (Js.assign _ _ _) as [t |] eqn:Ha; [| reflexivity].
  destruct (loaded w) as [| b | n | s | items | o] eqn:Ho;
    try (apply assign_not_object in Ha; [now rewrite Ha | exact I]).
  revert Ha. cbn [Js.assign]. destruct (_ && _); intros [= <-]; [reflexivity |].
  cbn [members_of]. now rewrite mapping_define, lookup_insert_ne.
Qed.

Lemma saveToken_object_store uid tok w :
  object_store w → object_store (snd (saveToken uid tok w)).
Proof.
  unfold object_store. rewrite saveToken_loaded.
  destruct (loaded w) as [| | | | | o] eqn:Ho; try easy. intros _.
  unfold Js.assign. destruct (writable w); [| exact I]. now destruct (_ && _).
Qed.








Lemma set_item_set_item n v1 v2 items :
  Js.set_item n v2 (Js.set_item n v1 items) = Js.set_item n v2 items.
Proof.
  unfold Js.set_item. destruct (n <? length items)%nat eqn:Hn.
  - rewrite length_insert, Hn. apply list_insert_insert_eq.
  - apply Nat.ltb_ge in Hn.
    replace (n <? length _)%nat with true.
    2:{ symmetry. apply Nat.ltb_lt.
        rewrite !length_app, length_replicate. cbn. lia. }
    rewrite insert_app_r_alt by lia.
    rewrite insert_app_r_alt by (rewrite length_replicate; lia).
    rewrite length_replicate.
    now replace (n - length items - (n - length items))%nat with 0%nat by lia.
Qed.

(** Assigning twice under one key is assigning the second value. *)
Lemma assign_assign v k r1 r2 t :
  Js.assign v k r1 = Val t → Js.assign t k r2 = Js.assign v k r2.
Proof.
  destruct v as [| b | n | s | items | o]; cbn [Js.assign]; try discriminate.
  - destruct (String.eqb k "__proto__") eqn:E; intros [= <-]; cbn. now rewrite E.
  - destruct (String.eqb k "__proto__") eqn:E; intros [= <-]; cbn. now rewrite E.
  - destruct (String.eqb k "__proto__") eqn:E; intros [= <-]; cbn. now rewrite E.
  - destruct (Js.array_index k) as [n |] eqn:E.
    + intros [= <-]. cbn. now rewrite E, set_item_set_item.
    + destruct (String.eqb k "length") eqn:E'; intros [= <-]. cbn. now rewrite E, E'.
  - destruct (String.eqb k "__proto__" && negb (Js.has_own k o)) eqn:E;
      intros [= <-]; cbn [Js.assign].
    + now rewrite E.
    + rewrite has_own_define, String.eqb_refl, andb_false_r.
      now rewrite define_define.
Qed.

End Store.




Example save_overwrites_and_keeps :
  let w := mkWorld (Some (Document (JObj [("7", token_record Scenario.token_exp_zero);
                                          ("8", token_record Scenario.token)])))
             true [] in
  let w' := snd (saveToken (Some (JNum 7)) Scenario.token_exp_2023 w) in
  stored w' !! "7" = Some (token_record Scenario.token_exp_2023)
  ∧ stored w' !! "8" = Some (token_record Scenario.token)
  ∧ logged Info (trace w') = [TokenSaved (Some (JNum 7))].
Proof. repeat split; vm_compute; reflexivity. Qed.

(** A file with a key written twice, an index out of place and a record
    with a member written twice: the save writes the keys in the order of
    the runtime, each once, with the last value. *)
Example save_rewrites_in_order :
  let w := mkWorld
             (Some (Document
                      (JObj [("b", JNum 1); ("10", JNum 2);
                             ("b", JObj [("x", JNum 1); ("x", JNum 2)]);
                             ("9", JNum 3)])))
             true [] in
  token_file (snd (saveToken (Some (JStr "a")) Scenario.token w))
  = Some (Document
            (JObj [("9", JNum 3); ("10", JNum 2); ("b", JObj [("x", JNum 2)]);
                   ("a", token_record Scenario.token)])).
Proof. vm_compute. reflexivity. Qed.

(** A token file that holds an array takes the record as an element,
    with [null] in the holes; one that holds a string takes nothing, and
    the error is logged. *)
Example save_into_other_values :
  let array := mkWorld (Some (Document (JArr []))) true [] in
  let text := mkWorld (Some (Document (JStr "abc"))) true [] in
  token_file (snd (saveToken (Some (JNum 2)) Scenario.token array))
  = Some (Document (JArr [JNull; JNull; token_record Scenario.token]))
  ∧ saveToken (Some (JNum 2)) Scenario.token text
    = (Done tt, record (Logged Error (SaveTokenError TypeError)) text).
Proof. split; vm_compute; reflexivity. Qed.

(** ** Token expiration *)

Section Expiration.

Context {platform : Platform} (env : environment).

(** A token that cannot be decoded counts as expired. *)
Lemma isExpired_malformed token w e :
  decode_claims token = Throw e →
  isExpired env token w
  = (Done true, record (Logged Error (ExpirationCheckError e)) w).
Proof. intros H. unfold isExpired. run_monad. now rewrite H. Qed.

(** Claims without [exp]: never expired. *)
Lemma isExpired_no_claim token w ms :
  decode_claims token = Val (JObj ms) →
  Js.last_member "exp" ms = None →
  isExpired env token w = (Done false, w).
Proof.
  intros H Hexp. unfold isExpired. run_monad. rewrite H. cbn. now rewrite Hexp.
Qed.

(** Claims with a non-zero [exp]: expired when the clock is past it. *)
Lemma isExpired_claim token w ms e :
  decode_claims token = Val (JObj ms) →
  Js.last_member "exp" ms = Some (JNum e) →
  e ≠ 0 →
  isExpired env token w
  = (Done (e <? clock env (trace w)), record (Logged Info (TokenExpiresAt e)) w).
Proof.
  intros H Hexp Hne. unfold isExpired. run_monad. rewrite H. cbn. rewrite Hexp.
  cbn. replace (e =? 0) with false by (symmetry; now apply Z.eqb_neq).
  reflexivity.
Qed.

(** Claims with [exp] equal to 0: the test [if (decodedPayload.exp)]
    takes them for claims without [exp]. *)
Lemma isExpired_zero token w ms :
  decode_claims token = Val (JObj ms) →
  Js.last_member "exp" ms = Some (JNum 0) →
  isExpired env token w = (Done false, w).
Proof.
  intros H Hexp. unfold isExpired. run_monad. rewrite H. cbn. now rewrite Hexp.
Qed.

Lemma isExpired_past token w ms e :
  decode_claims token = Val (JObj ms) →
  Js.last_member "exp" ms = Some (JNum e) →
  e ≠ 0 → e < clock env (trace w) →
  fst (isExpired env token w) = Done true.
Proof.
  intros H Hexp Hne Hlt. rewrite (isExpired_claim token w ms e) by assumption.
  cbn. f_equal. now apply Z.ltb_lt.
Qed.

Lemma isExpired_future token w ms e :
  decode_claims token = Val (JObj ms) →
  Js.last_member "exp" ms = Some (JNum e) →
  clock env (trace w) ≤ e →
  fst (isExpired env token w) = Done false.
Proof.
  intros H Hexp Hle. destruct (Z.eq_dec e 0) as [-> | Hne].
  - now rewrite (isExpired_zero token w ms).
  - rewrite (isExpired_claim token w ms e) by assumption.
    cbn. f_equal. now apply Z.ltb_ge.
Qed.

(** The check only logs: it sends nothing and leaves the token file
    alone. *)
Lemma isExpired_quiet token w :
  ∃ b w', isExpired env token w = (Done b, w')
          ∧ token_file w' = token_file w
          ∧ writable w' = writable w
          ∧ requests (trace w') = requests (trace w).
Proof.
  unfold isExpired. run_monad.
  destruct (decode_claims token) as [claims | e]; [| now eexists _, _].
  destruct (Js.get claims "exp") as [exp | e]; [| now eexists _, _].
  destruct (Js.truthy exp); [| now eexists _, _].
  destruct exp as [[| b | n | s | items | ms] |]; now eexists _, _.
Qed.

End Expiration.

(** C6.  A token whose claims are [{"exp":0}] has an expiration claim in
    the past of any clock reading after 1970, and [isExpired] answers
    [false] for it, as it does for a token without the claim. *)
Theorem C6_exp_zero_not_expired :
  let env := Scenario.offline in
  decode_claims Scenario.token_exp_zero = Val (JObj [("exp", JNum 0)])
  ∧ 0 < clock env (trace Scenario.start)
  ∧ isExpired env Scenario.token_exp_zero Scenario.start = (Done false, Scenario.start).
Proof. repeat split. Qed.

Example isExpired_on_tokens :
  let env := Scenario.offline in
  fst (isExpired env Scenario.token Scenario.start) = Done false
  ∧ fst (isExpired env (JStr "e30.eyJleHAiOjE2MDAwMDAwMDB9.sig") Scenario.start) = Done true
  ∧ fst (isExpired env (JStr "e30.eyJleHAiOjQxMDI0NDQ4MDB9.sig") Scenario.start) = Done false
  ∧ fst (isExpired env (JStr "not-a-token") Scenario.start) = Done true
  ∧ fst (isExpired env (JStr "e30.bm90IGpzb24.sig") Scenario.start) = Done true
  ∧ fst (isExpired env (JNum 5) Scenario.start) = Done true.
Proof. repeat split. Qed.

(** ** One account's turn *)

Section Account.

Context {platform : Platform} (env : environment).

Lemma login_without_token line w :
  no_token (net env (trace w) (login_request line)) →
  ∃ v w', loginToPinaiAPI env line w = (Done v, w')
          ∧ Js.truthy v = false
          ∧ token_file w' = token_file w
          ∧ writable w' = writable w
          ∧ requests (trace w') = login_request line :: requests (trace w).
Proof.
  unfold no_token, loginToPinaiAPI, ApiService.post, ApiService.exchange, login_request.
  run_monad. change (ApiService.bearer None) with (@None json).
  destruct (net env (trace w) _) as [| st d]; intros Hfail; [now eexists _, _ |].
  destruct (st =? 200) eqn:Hst.
  - destruct Hfail as [Hne | Hbody]; [apply Z.eqb_eq in Hst; contradiction |].
    destruct (Body.access_token d) as [v | e]; now eexists _, _.
  - now eexists _, _.
Qed.

Lemma process_account_throws steps tokenData i line w e :
  extract_user_id line = Throw e →
  process_account env steps tokenData i line w = (Raised e, w).
Proof. intros H. unfold process_account. run_monad. now rewrite H. Qed.





(** Without a token from the login step, that branch sends the login
    request and nothing else, and writes nothing. *)
Lemma login_and_run_fails steps uid line w :
  no_token (net env (trace (record (Logged Warn (TokenInvalid uid)) w))
              (login_request line)) →
  let run := login_and_run env steps uid line w in
  fst run = Done tt
  ∧ token_file (snd run) = token_file w
  ∧ requests (trace (snd run)) = login_request line :: requests (trace w).
Proof.
  intros Hfail. cbn zeta. unfold login_and_run. run_monad.
  destruct (login_without_token line (record (Logged Warn (TokenInvalid uid)) w) Hfail)
    as (v & w2 & -> & Hv & Hf2 & _ & Hr2).
  destruct v as [t |]; [rewrite Hv |]; cbn; rewrite Hf2, Hr2; now cbn.
Qed.

(** *** The turn on whatever was loaded *)


Lemma turn_records steps tokenData records i line :
  Js.records tokenData = Some records →
  turn env steps tokenData i line = process_account env steps records i line.
Proof. intros H. unfold turn. now rewrite H. Qed.

Lemma turn_throws steps tokenData i line w e :
  extract_user_id line = Throw e →
  turn env steps tokenData i line w = (Raised e, w).
Proof.
  intros H. unfold turn. destruct (Js.records tokenData).
  - now apply process_account_throws.
  - run_monad. now rewrite H.
Qed.



End Account.

(** C7.  For an account whose cached token is missing or expired, when
    the reply to the login request of this turn carries no token (the
    request is rejected, the status is not 200, or there is no truthy
    [access_token]) the turn ends normally, the token file is what it was,
    and the login request is the only request sent: the home state and
    the task list are not fetched. *)
Theorem C7_failed_login {platform : Platform} (env : environment) (steps : nat)
    (tokenData : json) (records : gmap string json) (i : nat) (line : string)
    (uid : option json) (w : world) :
  Js.records tokenData = Some records →
  extract_user_id line = Val uid →
  let currentToken := Js.get_opt (records !! Js.to_key uid) "access_token" in
  let w0 := record (Logged Info (ProcessingAccount (i + 1))) w in
  (Js.truthy currentToken = false
   ∨ ∃ t, currentToken = Some t ∧ fst (isExpired env t w0) = Done true) →
  let w1 := record (Logged Warn (TokenInvalid uid))
              (snd (unusable env currentToken w0)) in
  no_token (net env (trace w1) (login_request line)) →
  let run := turn env steps tokenData i line w in
  fst run = Done tt
  ∧ token_file (snd run) = token_file w
  ∧ requests (trace (snd run)) = login_request line :: requests (trace w).
Proof.
  intros Hrec Hext currentToken w0 Hcache w1 Hfail. cbn zeta.
  rewrite (turn_records env steps tokenData records i line Hrec).
  assert (Hunusable : ∃ w', unusable env currentToken w0 = (Done true, w')
                            ∧ token_file w' = token_file w
                            ∧ requests (trace w') = requests (trace w)).
  { unfold unusable. destruct currentToken as [t |] eqn:Hcur; [| now exists w0].
    destruct (Js.truthy (Some t)) eqn:Htruthy; [| now exists w0].
    destruct Hcache as [Hfalse | (t' & [= <-] & Hexp)]; [discriminate |].
    destruct (isExpired_quiet env t w0) as (b & w' & Hrun & Hf1 & _ & Hr1).
    rewrite Hrun in Hexp. cbn in Hexp. injection Hexp as ->.
    exists w'. now rewrite Hrun. }
  destruct Hunusable as (w' & Hun & Hf1 & Hr1).
  subst w1. rewrite Hun in Hfail. cbn [snd] in Hfail.
  destruct (login_and_run_fails env steps uid line w' Hfail) as (Hd & Hf2 & Hr2).
  unfold process_account. rewrite Hext. run_monad.
  fold currentToken. fold w0. rewrite Hun.
  destruct (login_and_run env steps uid line w') as [o w2].
  cbn in Hd, Hf2, Hr2. subst o. cbn. now rewrite Hf2, Hr2, Hf1, Hr1.
Qed.

Lemma C7_failed_login_witness :
  let run := turn Scenario.offline 0 (JObj []) 0 Scenario.line7 Scenario.start in
  fst run = Done tt
  ∧ token_file (snd run) = token_file Scenario.start
  ∧ requests (trace (snd run)) = login_request Scenario.line7 :: requests (trace Scenario.start).
Proof.
  apply (C7_failed_login Scenario.offline 0 (JObj []) ∅ 0 Scenario.line7
           (Some (JNum 7)) Scenario.start);
    [reflexivity | reflexivity | left; reflexivity | exact I].
Defined.

(** A server that refuses the first login and accepts every later one:
    the turn of the first pass is a failed login all the same. *)
Example failed_login_this_cycle_only :
  let env := {| net := fun h r =>
                  match r, logins h with
                  | Post PassportLoginTelegram _ _, [] => Rejected
                  | _, _ => net (Scenario.service (PNum 0) 0 []) h r
                  end;
                clock := Scenario.at_noon |} in
  let pass1 := snd (main env 1 0 (Some Scenario.line7) Scenario.start) in
  let pass2 := snd (main env 2 0 (Some Scenario.line7) Scenario.start) in
  requests (trace pass1) = [login_request Scenario.line7]
  ∧ token_file pass1 = None
  ∧ stored pass2 !! "7" = Some (token_record Scenario.token).
Proof. vm_compute. repeat split. Qed.

(** ** The main loop *)

Section Main.

Context {platform : Platform} (env : environment).


(** The pass stops at the first line whose account id cannot be read. *)
Lemma for_accounts_reaches steps tokenData good bad rest e :
  extract_user_id bad = Throw e →
  ∀ i w w1,
    for_accounts env steps tokenData i good w = (Done tt, w1) →
    for_accounts env steps tokenData i (good ++ bad :: rest) w = (Raised e, w1).
Proof.
  intros Hbad. induction good as [| line good IH]; intros i w w1 H.
  - injection H as <-. cbn [app for_accounts]. run_monad.
    now rewrite (turn_throws env steps tokenData i bad w e Hbad).
  - cbn [app for_accounts] in *. revert H. run_monad.
    destruct (turn env steps tokenData i line w) as [[[] | e' | ] w2];
      try discriminate.
    apply IH.
Qed.




Lemma main_reaches_bad_line cycles steps text good bad rest e w w1 :
  account_lines text = (good ++ bad :: rest)%list →
  extract_user_id bad = Throw e →
  for_accounts env steps (loaded w) 0 good (snd (loadTokens w)) = (Done tt, w1) →
  main env (S cycles) steps (Some text) w
  = (Exited 1, record (Logged Error (MainProcessError e)) w1).
Proof.
  intros Hlines Hbad Hgood.
  destruct (loadTokens_run w) as (w0 & Hload & _).
  rewrite Hload in Hgood. cbn [snd] in Hgood.
  unfold main. run_monad. rewrite Hload, Hlines. cbn [main_loop]. run_monad.
  now rewrite (for_accounts_reaches steps (loaded w) good bad rest e Hbad 0 w0 w1 Hgood).
Qed.





(** *** Errors inside a turn are logged where they happen *)





End Main.




(** With [null] in the token file a well-formed line ends the process
    too, before anything is sent. *)
Example null_token_file_ends_process :
  let w := mkWorld (Some (Document JNull)) true [] in
  main (Scenario.service (PNum 0) 0 []) 1 0 (Some Scenario.line7) w
  = (Exited 1,
     record (Logged Error (MainProcessError TypeError))
       (record (Logged Info (ProcessingAccount 1)) w)).
Proof. reflexivity. Qed.

(** ** Reuse of a cached token *)

Section Reuse.

Context {platform : Platform} (env : environment).

Lemma no_login_ret {A} (a : A) : no_login (mret a : M A).
Proof. intros w. reflexivity. Qed.

Lemma no_login_throw {A} e : no_login (Monad.throw e : M A).
Proof. intros w. reflexivity. Qed.

Lemma no_login_lift {A} (r : result A) : no_login (Monad.lift r).
Proof. destruct r; intros w; reflexivity. Qed.

Lemma no_login_defined {A} (x : option A) : no_login (Body.defined x).
Proof. destruct x; intros w; reflexivity. Qed.

Lemma no_login_log l m : no_login (Monad.emit (Logged l m)).
Proof. intros w. reflexivity. Qed.

Lemma no_login_wait n : no_login (Monad.emit (Waited n)).
Proof. intros w. reflexivity. Qed.

Lemma no_login_bind {A B} (m : M A) (k : A → M B) :
  no_login m → (∀ a, no_login (k a)) → no_login (m ≫= k).
Proof.
  intros Hm Hk w. specialize (Hm w). run_monad.
  destruct (m w) as [[a | e | ] w1]; cbn in *; [| assumption ..].
  now rewrite Hk.
Qed.

Lemma no_login_try {A} (m : M A) h :
  no_login m → (∀ e, no_login (h e)) → no_login (Monad.try_catch m h).
Proof.
  intros Hm Hh w. specialize (Hm w). run_monad.
  destruct (m w) as [[a | e | ] w1]; cbn in *; [assumption | | assumption].
  now rewrite Hh.
Qed.

Lemma no_login_for_each {A} (f : A → M unit) l :
  (∀ x, no_login (f x)) → no_login (Monad.for_each f l).
Proof.
  intros Hf. induction l as [| x l IH]; [apply no_login_ret |].
  apply (no_login_bind (f x)); auto.
Qed.

Lemma no_login_exchange r : is_login r = false → no_login (ApiService.exchange env r).
Proof.
  intros Hr w. unfold ApiService.exchange.
  destruct (net env (trace w) r); unfold logins; cbn; now rewrite Hr.
Qed.

Lemma no_login_post e data tok :
  e ≠ PassportLoginTelegram → no_login (ApiService.post env e data tok).
Proof.
  intros He. apply no_login_try.
  - apply no_login_exchange. now destruct e.
  - intros err. apply no_login_bind; [apply no_login_log | intros _; apply no_login_throw].
Qed.

Lemma no_login_get e tok : no_login (ApiService.get env e tok).
Proof.
  apply no_login_try.
  - now apply no_login_exchange.
  - intros err. apply no_login_bind; [apply no_login_log | intros _; apply no_login_throw].
Qed.

Ltac no_login_step :=
  first
    [ apply no_login_ret | apply no_login_throw | apply no_login_lift
    | apply no_login_defined | apply no_login_log | apply no_login_wait
    | apply no_login_get | apply no_login_post; discriminate
    | apply no_login_try; [| intros ?]
    | apply no_login_bind; [| intros ?]
    | match goal with
      | |- no_login (match ?x with _ => _ end) => destruct x
      | |- no_login (let '(_, _) := ?x in _) => destruct x
      end ].

Lemma no_login_collect_loop steps tok ty :
  ∀ count, no_login (collect_loop env steps tok ty count).
Proof.
  induction steps as [| steps IH]; intros count; cbn [collect_loop];
    destruct (0 <? count); try apply no_login_ret.
  - intros w. reflexivity.
  - unfold logger.info, UserInterface.countdown.
    repeat (first [apply IH | no_login_step]).
Qed.

Lemma no_login_collectCoins steps tok c : no_login (collectCoins env steps tok c).
Proof.
  unfold collectCoins, logger.info, logger.error.
  repeat (first [apply no_login_collect_loop | no_login_step]).
Qed.

Lemma no_login_upgradeModel tok l : no_login (upgradeModel env tok l).
Proof. unfold upgradeModel, logger.info, logger.error. repeat no_login_step. Qed.

Lemma no_login_checkAndUpgradeModel tok p l :
  no_login (checkAndUpgradeModel env tok p l).
Proof.
  unfold checkAndUpgradeModel, logger.warn, logger.error.
  repeat (first [apply no_login_upgradeModel | no_login_step]).
Qed.

Lemma no_login_getHomeData steps tok up : no_login (getHomeData env steps tok up).
Proof.
  unfold getHomeData, logHomeData, logger.info, logger.error.
  repeat (first [apply no_login_collectCoins | apply no_login_checkAndUpgradeModel
                | no_login_step]).
Qed.

Lemma no_login_completeTask tok id msg : no_login (completeTask env tok id msg).
Proof. unfold completeTask, logger.info, logger.error. repeat no_login_step. Qed.

Lemma no_login_getTasks tok : no_login (getTasks env tok).
Proof.
  unfold getTasks, logger.error.
  repeat (first [ apply no_login_for_each; intros ?; unfold handle_task
                | apply no_login_completeTask | no_login_step ]).
Qed.

Lemma no_login_run_with steps cur : no_login (run_with env steps cur).
Proof.
  unfold run_with.
  repeat (first [apply no_login_getHomeData | apply no_login_getTasks | no_login_step]).
Qed.

(** An account whose token in the mapping loaded at startup is usable
    goes through its turn without a login request. *)
Lemma process_account_reuses steps tokenData i line uid w t :
  extract_user_id line = Val uid →
  Js.get_opt (tokenData !! Js.to_key uid) "access_token" = Some t →
  Js.truthy (Some t) = true →
  fst (isExpired env t (record (Logged Info (ProcessingAccount (i + 1))) w))
    = Done false →
  logins (trace (snd (process_account env steps tokenData i line w)))
  = logins (trace w).
Proof.
  intros Hext Hcur Htruthy Hexp.
  destruct (isExpired_quiet env t (record (Logged Info (ProcessingAccount (i + 1))) w))
    as (b & w1 & Hrun & _ & _ & Hr1).
  rewrite Hrun in Hexp. cbn in Hexp. injection Hexp as ->.
  unfold process_account. rewrite Hext. run_monad. rewrite Hcur.
  unfold unusable. rewrite Htruthy, Hrun.
  pose proof (no_login_run_with steps (Some t) w1) as Hno.
  unfold logins in *. cbn [requests trace record] in Hr1.
  destruct (run_with env steps (Some t) w1) as [[[] | e | ] w2];
    cbn [snd requests trace record] in *; now rewrite Hno, Hr1.
Qed.

End Reuse.

(** C2.  One account, no token file at startup, a server that logs the
    account in with a token that carries no expiration.  After the first
    pass the token file holds that token for the account, and the token is
    not expired at any time; the second pass logs the account in again all
    the same, because the mapping it consults was loaded before the first
    pass. *)
Theorem C2_second_pass_logs_in_again :
  let env := Scenario.service (PNum 0) 0 [] in
  let pass1 := snd (main env 1 0 (Some Scenario.line7) Scenario.start) in
  let pass2 := snd (main env 2 0 (Some Scenario.line7) Scenario.start) in
  stored pass1 !! "7" = Some (token_record Scenario.token)
  ∧ (∀ w, fst (isExpired env Scenario.token w) = Done false)
  ∧ logins (trace pass2)
    = [login_request Scenario.line7; login_request Scenario.line7].
Proof.
  cbn zeta. split; [vm_compute; reflexivity |].
  split; [| vm_compute; reflexivity].
  intros w. now rewrite (isExpired_no_claim _ Scenario.token w []).
Qed.

(** Started with that token already in the file, the same two passes
    send no login request. *)
Example restart_reuses_token :
  let env := Scenario.service (PNum 0) 0 [] in
  let w := mkWorld (Some (Document (JObj [("7", token_record Scenario.token)]))) true [] in
  logins (trace (snd (main env 2 0 (Some Scenario.line7) w))) = [].
Proof. vm_compute. reflexivity. Qed.

(** * Further properties *)

(** ** Splitting strings *)

Section Splitting.
Import JsString.

Lemma string_app_cons c (a b : string) :
  (String c a ++ b)%string = String c (a ++ b).
Proof. reflexivity. Qed.

Lemma string_app_nil_l (b : string) : ("" ++ b)%string = b.
Proof. reflexivity. Qed.

Lemma string_app_nil_r (s : string) : (s ++ "")%string = s.
Proof.
  induction s as [| c s IH]; [reflexivity |].
  now rewrite string_app_cons, IH.
Qed.

Lemma string_app_assoc (a b c : string) :
  ((a ++ b) ++ c)%string = (a ++ (b ++ c))%string.
Proof.
  induction a as [| x a IH]; [reflexivity |].
  now rewrite !string_app_cons, IH.
Qed.

Lemma chars_app (a b : string) : chars (a ++ b) = (chars a ++ chars b)%list.
Proof.
  unfold chars. induction a as [| x a IH]; [reflexivity |].
  rewrite string_app_cons. cbn [list_ascii_of_string]. now rewrite IH.
Qed.

Lemma rev_app_append a :
  ∀ b s, (String.rev_app a b ++ s)%string = String.rev_app a (b ++ s).
Proof.
  induction a as [| c a IH]; intros b s; [reflexivity |].
  cbn [String.rev_app]. now rewrite IH, string_app_cons.
Qed.

(** Moving a character from the piece being read to the text ahead. *)
Lemma rev_cons_append c cur s :
  (String.rev (String c cur) ++ s)%string = (String.rev cur ++ String c s)%string.
Proof.
  unfold String.rev. cbn [String.rev_app].
  now rewrite !rev_app_append, string_app_cons, !string_app_nil_l.
Qed.

Lemma chars_rev_app a :
  ∀ b x, In x (chars (String.rev_app a b)) ↔ In x (chars a) ∨ In x (chars b).
Proof.
  induction a as [| c a IH]; intros b x; [cbn; tauto |].
  cbn [String.rev_app]. rewrite IH. cbn. tauto.
Qed.

Lemma chars_rev (s : string) x : In x (chars (String.rev s)) ↔ In x (chars s).
Proof. unfold String.rev. rewrite chars_rev_app. cbn. tauto. Qed.

Lemma includes_false_cons sep c s :
  includes sep (String c s) = false →
  String.prefix sep (String c s) = false ∧ includes sep s = false.
Proof. cbn [includes]. now intros [? ?]%orb_false_iff. Qed.

(** A string without the separator is a single piece. *)
Lemma split_aux_absent sep s :
  ∀ cur, includes sep s = false →
         split_aux sep 0 cur s = [(String.rev cur ++ s)%string].
Proof.
  induction s as [| c s IH]; intros cur H.
  - cbn [split_aux]. now rewrite string_app_nil_r.
  - destruct (includes_false_cons sep c s H) as [Hp Hs].
    cbn [split_aux]. rewrite Hp, (IH _ Hs). now rewrite rev_cons_append.
Qed.

Lemma split_absent sep s : includes sep s = false → split sep s = [s].
Proof. intros H. unfold split. now rewrite split_aux_absent. Qed.

Lemma prefix_char c s : String.prefix (String c "") (String c s) = true.
Proof. cbn. destruct (ascii_dec c c); [now destruct s | congruence]. Qed.

Lemma prefix_other_char c d s :
  c ≠ d → String.prefix (String c "") (String d s) = false.
Proof. intros H. cbn. now destruct (ascii_dec c d). Qed.

(** Splitting at a character distributes over a join with it. *)
Lemma split_aux_char_app c a b :
  ∀ cur, split_aux (String c "") 0 cur (a ++ String c b)
         = (split_aux (String c "") 0 cur a ++ split_aux (String c "") 0 "" b)%list.
Proof.
  induction a as [| d a IH]; intros cur.
  - rewrite string_app_nil_l. cbn [split_aux]. rewrite prefix_char.
    now change (String.length (String c "") - 1)%nat with 0%nat.
  - rewrite string_app_cons. cbn [split_aux]. destruct (ascii_dec c d) as [<- | Hne].
    + rewrite !prefix_char.
      change (String.length (String c "") - 1)%nat with 0%nat.
      rewrite IH. reflexivity.
    + rewrite !prefix_other_char by assumption. apply IH.
Qed.

(** No piece holds the separating character, and every character of a
    piece comes from the text. *)
Lemma split_aux_char_pieces c s :
  ∀ cur piece x,
    In piece (split_aux (String c "") 0 cur s) →
    In x (chars piece) →
    (In x (chars cur) ∨ (In x (chars s) ∧ x ≠ c)).
Proof.
  induction s as [| d s IH]; intros cur piece x Hp Hx.
  - cbn in Hp. destruct Hp as [<- | []]. left. now apply chars_rev.
  - cbn [split_aux] in Hp. destruct (ascii_dec c d) as [<- | Hne].
    + rewrite prefix_char in Hp.
      change (String.length (String c "") - 1)%nat with 0%nat in Hp.
      destruct Hp as [<- | Hp].
      * left. now apply chars_rev.
      * destruct (IH _ _ _ Hp Hx) as [[] | [Hin Hc]]. right. split; [now right | easy].
    + rewrite prefix_other_char in Hp by assumption.
      destruct (IH _ _ _ Hp Hx) as [[<- | Hin] | [Hin Hc]].
      * right. split; [now left | congruence].
      * now left.
      * right. split; [now right | easy].
Qed.

Lemma remove_all_chars c s x :
  In x (chars (remove_all c s)) ↔ In x (chars s) ∧ x ≠ c.
Proof.
  induction s as [| d s IH]; cbn [remove_all]; [cbn; tauto |].
  destruct (Ascii.eqb_spec c d) as [<- | Hne].
  - rewrite IH. cbn. intuition congruence.
  - cbn. rewrite IH. intuition congruence.
Qed.

Lemma remove_all_app c a b :
  remove_all c (a ++ b) = (remove_all c a ++ remove_all c b)%string.
Proof.
  induction a as [| d a IH]; [reflexivity |].
  rewrite string_app_cons. cbn [remove_all].
  destruct (Ascii.eqb c d); [| rewrite string_app_cons]; now rewrite IH.
Qed.

(** Without the character there is nothing to remove. *)
Lemma remove_all_absent c s : ¬ In c (chars s) → remove_all c s = s.
Proof.
  induction s as [| d s IH]; intros H; [reflexivity |].
  cbn [remove_all]. destruct (Ascii.eqb_spec c d) as [<- | Hne].
  - elim H. now left.
  - f_equal. apply IH. intros Hin. apply H. now right.
Qed.

Lemma includes_char_in c s : includes (String c "") s = true ↔ In c (chars s).
Proof.
  induction s as [| d s IH]; [cbn; intuition discriminate |].
  cbn [includes]. rewrite orb_true_iff, IH. cbn [chars list_ascii_of_string In].
  destruct (ascii_dec c d) as [<- | Hne].
  - rewrite prefix_char. tauto.
  - rewrite prefix_other_char by assumption. intuition congruence.
Qed.

End Splitting.

(** ** The account list *)

(** X1.  No account line is empty, and none holds a carriage return or a
    line feed. *)
Theorem account_lines_clean (text line : string) :
  In line (account_lines text) →
  line ≠ ""
  ∧ ¬ In "013"%char (chars line)
  ∧ ¬ In "010"%char (chars line).
Proof.
  unfold account_lines, JsString.split. intros [Hin Hne]%filter_In.
  split; [| split].
  - intros ->. discriminate.
  - intros Hx.
    destruct (split_aux_char_pieces _ _ _ _ _ Hin Hx) as [[] | [H _]].
    apply remove_all_chars in H. now destruct H.
  - intros Hx.
    destruct (split_aux_char_pieces _ _ _ _ _ Hin Hx) as [[] | [_ H]].
    now elim H.
Qed.

Lemma account_lines_clean_witness :
  Scenario.line7 ≠ ""
  ∧ ¬ In "013"%char (chars Scenario.line7)
  ∧ ¬ In "010"%char (chars Scenario.line7).
Proof.
  apply (account_lines_clean Scenario.good_then_bad Scenario.line7).
  cbn. now left.
Defined.

(** X2.  The lines of two texts joined by a line feed are the lines of
    the first followed by the lines of the second: blank lines, a
    trailing line feed and carriage returns change nothing. *)
Theorem account_lines_join (a b : string) :
  account_lines (a ++ Scenario.newline ++ b)
  = (account_lines a ++ account_lines b)%list.
Proof.
  unfold account_lines, JsString.split, Scenario.newline.
  rewrite !remove_all_app. cbn [JsString.remove_all Ascii.eqb Bool.eqb].
  rewrite string_app_cons, string_app_nil_l, split_aux_char_app.
  apply List.filter_app.
Qed.

(** ** Lines and tokens with a missing part *)

Section MissingParts.

Context {platform : Platform} (env : environment).

Lemma extract_user_id_absent line :
  JsString.includes "user=" line = false →
  extract_user_id line = Throw TypeError.
Proof.
  intros H. unfold extract_user_id. now rewrite (split_absent _ _ H).
Qed.

Lemma decode_claims_absent token :
  (∀ s, token = JStr s → JsString.includes "." s = false) →
  decode_claims token = Throw TypeError.
Proof.
  intros H. destruct token as [| b | n | s | items | ms]; try reflexivity.
  unfold decode_claims. now rewrite (split_absent _ _ (H s eq_refl)).
Qed.

End MissingParts.

(** X3.  A line without [user=] cannot be processed: reading the account
    id throws a [TypeError] before anything is logged or sent, and when
    the pass reaches such a line the process exits with status 1. *)
Theorem line_without_user_ends_process {platform : Platform}
    (env : environment) (cycles steps : nat) (text : string)
    (good rest : list string) (bad : string) (w w1 : world) :
  JsString.includes "user=" bad = false →
  account_lines text = (good ++ bad :: rest)%list →
  for_accounts env steps (loaded w) 0 good (snd (loadTokens w)) = (Done tt, w1) →
  (∀ tokenData i w', turn env steps tokenData i bad w' = (Raised TypeError, w'))
  ∧ main env (S cycles) steps (Some text) w
    = (Exited 1, record (Logged Error (MainProcessError TypeError)) w1).
Proof.
  intros Habsent Hlines Hgood.
  pose proof (extract_user_id_absent bad Habsent) as Hbad. split.
  - intros tokenData i w'. now apply turn_throws.
  - now apply (main_reaches_bad_line env cycles steps text good bad rest TypeError w w1).
Qed.

Lemma line_without_user_ends_process_witness :
  main Scenario.offline 1 0 (Some Scenario.bad_then_good) Scenario.start
  = (Exited 1, record (Logged Error (MainProcessError TypeError)) Scenario.start).
Proof.
  apply (line_without_user_ends_process Scenario.offline 0 0 Scenario.bad_then_good
           [] [Scenario.line7] Scenario.line_no_user Scenario.start Scenario.start);
    reflexivity.
Defined.

(** X4.  A token that is not a string, or a string without a dot, has no
    claims segment: it counts as expired, with the error logged, whatever
    the clock says. *)
Theorem isExpired_without_claims_segment {platform : Platform}
    (env : environment) (token : json) (w : world) :
  (∀ s, token = JStr s → JsString.includes "." s = false) →
  isExpired env token w
  = (Done true, record (Logged Error (ExpirationCheckError TypeError)) w).
Proof.
  intros H. apply isExpired_malformed. now apply decode_claims_absent.
Qed.

Lemma isExpired_without_claims_segment_witness :
  isExpired Scenario.offline (JStr "not-a-token") Scenario.start
  = (Done true,
     record (Logged Error (ExpirationCheckError TypeError)) Scenario.start).
Proof.
  apply (isExpired_without_claims_segment Scenario.offline (JStr "not-a-token")
           Scenario.start).
  intros s [= <-]. reflexivity.
Defined.

(** X5.  Expiry does not go away with time: a token found expired at one
    clock reading is found expired at every later one. *)
Theorem isExpired_stays_expired {platform : Platform}
    (env env' : environment) (token : json) (w w' : world) :
  fst (isExpired env token w) = Done true →
  clock env (trace w) ≤ clock env' (trace w') →
  fst (isExpired env' token w') = Done true.
Proof.
  unfold isExpired. run_monad.
  destruct (decode_claims token) as [claims | e]; [| reflexivity].
  destruct (Js.get claims "exp") as [exp | e]; [| reflexivity].
  destruct (Js.truthy exp); [| discriminate].
  destruct exp as [[| b | n | s | items | ms] |]; try reflexivity.
  cbn. intros [= H] Hle. f_equal. apply Z.ltb_lt in H. apply Z.ltb_lt. lia.
Qed.

Lemma isExpired_stays_expired_witness :
  let later := {| net := net Scenario.offline; clock := fun _ => 1700086401 |} in
  fst (isExpired later Scenario.token_exp_2023
         (record (Waited 86400) Scenario.start)) = Done true.
Proof.
  intros later.
  apply (isExpired_stays_expired
           {| net := net Scenario.offline; clock := fun _ => 1700000001 |}
           later Scenario.token_exp_2023 Scenario.start
           (record (Waited 86400) Scenario.start)).
  - reflexivity.
  - cbn. lia.
Defined.

(** ** What each step may touch *)

#[export] Instance same_file_frame : Frame same_file.
Proof.
  split.
  - now intros w.
  - intros w1 w2 w3 [H1 H2] [H3 H4]. split; congruence.
  - now intros w ev.
Qed.

#[export] Instance other_records_frame k : Frame (other_records k).
Proof.
  split.
  - now intros w.
  - intros w1 w2 w3 [H1 H2] [H3 H4]. split; [congruence |].
    intros k' Hk. now rewrite H4, H2.
  - now intros w ev.
Qed.

Lemma same_file_other_records k w w' : same_file w w' → other_records k w w'.
Proof. intros [Hf Hw]. split; [assumption |]. intros k' _. unfold stored, loaded. now rewrite Hf. Qed.

Lemma requests_app a b : requests (a ++ b) = (requests a ++ requests b)%list.
Proof.
  induction a as [| [l m | r | n] a IH]; cbn; [reflexivity | | now rewrite IH |];
    assumption.
Qed.

Section Acts.

Context (env : environment).
Context (R : world → world → Prop) {HFrame : Frame R} (Q : request → Prop).

#[local] Set Default Proof Using "Type + HFrame".

Lemma acts_ret {A} (a : A) : acts R Q (mret a : M A).
Proof. intros w. split; [apply frame_refl | now exists []]. Qed.

Lemma acts_throw {A} e : acts R Q (Monad.throw e : M A).
Proof. intros w. split; [apply frame_refl | now exists []]. Qed.

Lemma acts_out_of_fuel {A} : acts R Q (fun w => (OutOfFuel, w) : outcome A * world).
Proof. intros w. split; [apply frame_refl | now exists []]. Qed.

Lemma acts_lift {A} (r : result A) : acts R Q (Monad.lift r).
Proof. destruct r; [apply acts_ret | apply acts_throw]. Qed.

Lemma acts_defined {A} (x : option A) : acts R Q (Body.defined x).
Proof. destruct x; [apply acts_ret | apply acts_throw]. Qed.

Lemma acts_log l m : acts R Q (Monad.emit (Logged l m)).
Proof. intros w. split; [apply frame_record | now exists [Logged l m]]. Qed.

Lemma acts_wait n : acts R Q (Monad.emit (Waited n)).
Proof. intros w. split; [apply frame_record | now exists [Waited n]]. Qed.

Lemma acts_history : acts R Q Monad.history.
Proof. intros w. split; [apply frame_refl | now exists []]. Qed.

Lemma acts_bind {A B} (m : M A) (k : A → M B) :
  acts R Q m → (∀ a, acts R Q (k a)) → acts R Q (m ≫= k).
Proof.
  intros Hm Hk w. destruct (Hm w) as (HR & new & Htr & HQ). run_monad.
  destruct (m w) as [[a | e | ] w1]; cbn [snd] in *; [| now eauto ..].
  destruct (Hk a w1) as (HR' & new' & Htr' & HQ'). split.
  - eapply frame_trans; eassumption.
  - exists (new' ++ new)%list. rewrite Htr', Htr, app_assoc. split; [reflexivity |].
    rewrite requests_app. apply Forall_app. now split.
Qed.

Lemma acts_try {A} (m : M A) h :
  acts R Q m → (∀ e, acts R Q (h e)) → acts R Q (Monad.try_catch m h).
Proof.
  intros Hm Hh w. destruct (Hm w) as (HR & new & Htr & HQ). run_monad.
  destruct (m w) as [[a | e | ] w1]; cbn [snd] in *; [now eauto | | now eauto].
  destruct (Hh e w1) as (HR' & new' & Htr' & HQ'). split.
  - eapply frame_trans; eassumption.
  - exists (new' ++ new)%list. rewrite Htr', Htr, app_assoc. split; [reflexivity |].
    rewrite requests_app. apply Forall_app. now split.
Qed.

Lemma acts_for_each {A} (f : A → M unit) l :
  (∀ x, acts R Q (f x)) → acts R Q (Monad.for_each f l).
Proof.
  intros Hf. induction l as [| x l IH]; [apply acts_ret |].
  apply (acts_bind (f x)); auto.
Qed.

Lemma acts_exchange r : Q r → acts R Q (ApiService.exchange env r).
Proof.
  intros Hr w. unfold ApiService.exchange.
  destruct (net env (trace w) r); (split; [apply frame_record |]);
    exists [Sent r]; split; try reflexivity; now constructor.
Qed.

Lemma acts_post e data tok :
  Q (Post e data (ApiService.bearer tok)) → acts R Q (ApiService.post env e data tok).
Proof.
  intros H. apply acts_try; [now apply acts_exchange |].
  intros err. apply acts_bind; [apply acts_log | intros _; apply acts_throw].
Qed.

Lemma acts_get e tok :
  Q (Get e (ApiService.bearer tok)) → acts R Q (ApiService.get env e tok).
Proof.
  intros H. apply acts_try; [now apply acts_exchange |].
  intros err. apply acts_bind; [apply acts_log | intros _; apply acts_throw].
Qed.

End Acts.

Lemma acts_weaken {A} (R R' : world → world → Prop) (Q Q' : request → Prop)
    (m : M A) :
  (∀ w w', R w w' → R' w w') → (∀ r, Q r → Q' r) →
  acts R Q m → acts R' Q' m.
Proof.
  intros HR HQ Hm w. destruct (Hm w) as (H & new & Htr & Hall). split; [auto |].
  exists new. split; [assumption |]. eapply Forall_impl; eauto.
Qed.

(** One step of a proof that a computation [acts]: the structure of the
    computation decides the lemma. *)
Ltac acts_step :=
  first
    [ exact _
    | apply acts_ret | apply acts_throw | apply acts_lift | apply acts_defined
    | apply acts_log | apply acts_wait | apply acts_history | apply acts_out_of_fuel
    | apply acts_try; [| | intros ?]
    | apply acts_bind; [| | intros ?]
    | match goal with
      | |- acts _ _ (match ?x with _ => _ end) => destruct x
      end ].

Section Footprints.

Context {platform : Platform} (env : environment).

Lemma collect_loop_acts steps tok ty up :
  ∀ count, acts same_file (home_step_request tok up)
             (collect_loop env steps tok ty count).
Proof.
  induction steps as [| steps IH]; intros count; cbn [collect_loop];
    destruct (0 <? count); try (apply acts_ret; exact _);
    try (apply acts_out_of_fuel; exact _).
  unfold logger.info, UserInterface.countdown.
  repeat (first [apply IH | apply acts_post; [exact _ | reflexivity] | acts_step]).
Qed.

Lemma collectCoins_acts steps tok c up :
  acts same_file (home_step_request tok up) (collectCoins env steps tok c).
Proof.
  unfold collectCoins, logger.info, logger.error.
  repeat (first [apply collect_loop_acts | acts_step]).
Qed.

Lemma upgradeModel_acts tok l :
  acts same_file (home_step_request tok true) (upgradeModel env tok l).
Proof.
  unfold upgradeModel, logger.info, logger.error.
  repeat (first [apply acts_post; [exact _ | now split] | acts_step]).
Qed.

Lemma checkAndUpgradeModel_acts tok p l :
  acts same_file (home_step_request tok true) (checkAndUpgradeModel env tok p l).
Proof.
  unfold checkAndUpgradeModel, logger.warn, logger.error.
  repeat (first [ apply upgradeModel_acts | apply acts_get; [exact _ | now split]
                | acts_step ]).
Qed.

Lemma completeTask_acts tok id msg :
  acts same_file (task_step_request tok) (completeTask env tok id msg).
Proof.
  unfold completeTask, logger.info, logger.error.
  repeat (first [apply acts_post; [exact _ | reflexivity] | acts_step]).
Qed.

Lemma isExpired_acts token :
  acts same_file (fun _ => False) (isExpired env token).
Proof.
  unfold isExpired, logger.info, logger.error. repeat acts_step.
Qed.

Lemma loginToPinaiAPI_acts line :
  acts same_file (eq (login_request line)) (loginToPinaiAPI env line).
Proof.
  unfold loginToPinaiAPI, logger.info, logger.error.
  repeat (first [apply acts_post; [exact _ | reflexivity] | acts_step]).
Qed.

Lemma saveToken_acts uid tok :
  acts (other_records (Js.to_key uid)) (fun _ => False) (saveToken uid tok).
Proof.
  intros w. split.
  - split; [apply saveToken_writable |].
    intros k' Hk. apply saveToken_others. congruence.
  - destruct (loadTokens_run w) as (w1 & Hload & Hfile & Hwr).
    assert (Hlog : ∃ new, trace w1 = (new ++ trace w)%list ∧ requests new = []).
    { revert Hload. unfold loadTokens.
      destruct (token_file w) as [[| value] |]; intros [= _ <-];
        [now exists [Logged Error (LoadTokensError SyntaxError)] | now exists [] ..]. }
    destruct Hlog as (new & Htr & Hreq).
    rewrite saveToken_run, Hload. cbn zeta. cbn [snd].
    destruct (Js.assign _ _ _); [destruct (writable w) |]; cbn [snd trace record];
      eexists (_ :: new); rewrite Htr; (split; [reflexivity |]);
      cbn [requests]; now rewrite Hreq.
Qed.

End Footprints.

Lemma getHomeData_acts (env : environment) (steps : nat) (tok : json)
    (up : bool) :
  acts same_file (home_step_request tok up) (getHomeData env steps tok up).
Proof.
  unfold getHomeData, logHomeData, logger.info, logger.error.
  repeat (first [ apply collectCoins_acts | apply checkAndUpgradeModel_acts
                | apply acts_get; [exact _ | reflexivity] | acts_step ]).
Qed.

Lemma getTasks_acts (env : environment) (tok : json) :
  acts same_file (task_step_request tok) (getTasks env tok).
Proof.
  unfold getTasks, logger.error.
  repeat (first [ apply acts_for_each; [exact _ | intros ?; unfold handle_task]
                | apply completeTask_acts
                | apply acts_get; [exact _ | reflexivity] | acts_step ]).
Qed.

(** X6.  The home step leaves the token file alone, only adds to the
    trace, and sends nothing but requests for the home state and claims,
    and with [shouldUpgrade] for the cost table and the upgrade, each
    with the token it was given. *)
Theorem getHomeData_footprint (env : environment) (steps : nat) (tok : json)
    (up : bool) (w : world) :
  let w' := snd (getHomeData env steps tok up w) in
  token_file w' = token_file w
  ∧ writable w' = writable w
  ∧ ∃ new, trace w' = (new ++ trace w)%list
           ∧ Forall (home_step_request tok up) (requests new).
Proof.
  destruct (getHomeData_acts env steps tok up w) as [[Hf Hw] Hnew].
  cbn zeta. auto.
Qed.

(** X7.  The task step leaves the token file alone, only adds to the
    trace, and sends nothing but the request for the task list and
    completion requests, each with the token it was given. *)
Theorem getTasks_footprint (env : environment) (tok : json) (w : world) :
  let w' := snd (getTasks env tok w) in
  token_file w' = token_file w
  ∧ writable w' = writable w
  ∧ ∃ new, trace w' = (new ++ trace w)%list
           ∧ Forall (task_step_request tok) (requests new).
Proof.
  destruct (getTasks_acts env tok w) as [[Hf Hw] Hnew].
  cbn zeta. auto.
Qed.

(** X8.  The expiry check always answers, sends no request and leaves
    the token file alone: all it may do is log. *)
Theorem isExpired_only_logs {platform : Platform} (env : environment)
    (token : json) :
  acts same_file (fun _ => False) (isExpired env token)
  ∧ ∀ w, ∃ b, fst (isExpired env token w) = Done b.
Proof.
  split; [apply isExpired_acts |].
  intros w. destruct (isExpired_quiet env token w) as (b & w' & -> & _).
  now exists b.
Qed.

(** ** Logging in *)

Lemma loginToPinaiAPI_run (env : environment) (line : string) (w : world) :
  ∃ v w',
    loginToPinaiAPI env line w = (Done v, w')
    ∧ same_file w w'
    ∧ requests (trace w') = login_request line :: requests (trace w)
    ∧ (Js.truthy v = true →
       ∃ d, net env (trace w) (login_request line) = Response 200 d
            ∧ Body.access_token d = Val v).
Proof.
  unfold loginToPinaiAPI, ApiService.post, ApiService.exchange, login_request.
  run_monad. change (ApiService.bearer None) with (@None json).
  destruct (net env (trace w) _) as [| st d]; [now eexists _, _ |].
  destruct (st =? 200) eqn:Hst; [| now eexists _, _].
  apply Z.eqb_eq in Hst. subst st.
  destruct (Body.access_token d) as [v | e] eqn:Hd; [| now eexists _, _].
  eexists _, _. repeat split. intros _. now exists d.
Qed.

(** X9.  The login step never throws: it sends the login request, without
    a token, exactly once, leaves the token file alone, and hands out a
    truthy token only when the reply is a 200 that carries it. *)
Theorem loginToPinaiAPI_once (env : environment) (line : string) (w : world) :
  ∃ v w',
    loginToPinaiAPI env line w = (Done v, w')
    ∧ same_file w w'
    ∧ requests (trace w') = login_request line :: requests (trace w)
    ∧ (Js.truthy v = true →
       ∃ d, net env (trace w) (login_request line) = Response 200 d
            ∧ Body.access_token d = Val v).
Proof. apply loginToPinaiAPI_run. Qed.

(** ** One turn, one pass, the whole run *)

Section Turns.

Context {platform : Platform} (env : environment).

Lemma logins_requests tr tr' :
  requests tr' = requests tr → logins tr' = logins tr.
Proof. unfold logins. now intros ->. Qed.

Lemma no_login_unusable cur : no_login (unusable env cur).
Proof.
  intros w. unfold unusable.
  destruct cur as [t |]; [| reflexivity].
  destruct (Js.truthy (Some t)); [| reflexivity].
  destruct (isExpired_quiet env t w) as (b & w' & -> & _ & _ & Hr).
  now apply logins_requests.
Qed.

Lemma no_login_saveToken uid tok : no_login (saveToken uid tok).
Proof.
  intros w. destruct (saveToken_acts uid tok w) as (_ & new & -> & Hall).
  unfold logins. rewrite requests_app.
  destruct (requests new) as [| r rs]; [reflexivity |].
  now inversion Hall.
Qed.

(** The branch that logs in sends one login request. *)
Lemma login_and_run_logins steps uid line w :
  logins (trace (snd (login_and_run env steps uid line w)))
  = login_request line :: logins (trace w).
Proof.
  unfold login_and_run. run_monad.
  destruct (loginToPinaiAPI_run env line (record (Logged Warn (TokenInvalid uid)) w))
    as (v & w1 & -> & _ & Hr & _).
  assert (H1 : logins (trace w1) = login_request line :: logins (trace w)).
  { unfold logins. now rewrite Hr. }
  destruct v as [t |]; [| exact H1].
  destruct (Js.truthy (Some t)); [| exact H1].
  pose proof (no_login_saveToken uid t w1) as Hs.
  destruct (saveToken uid t w1) as [[[] | e | ] w2]; cbn [snd] in *;
    [| congruence ..].
  pose proof (no_login_getHomeData env steps t shouldUpgrade w2) as Hh.
  destruct (getHomeData env steps t shouldUpgrade w2) as [[[] | e | ] w3];
    cbn [snd] in *; [| congruence ..].
  pose proof (no_login_getTasks env t w3) as Ht. congruence.
Qed.

Lemma process_account_logins steps toks i line w :
  let w' := snd (process_account env steps toks i line w) in
  logins (trace w') = logins (trace w)
  ∨ logins (trace w') = login_request line :: logins (trace w).
Proof.
  cbn zeta. unfold process_account. run_monad.
  destruct (extract_user_id line) as [uid | e]; [| now left].
  set (cur := Js.get_opt (toks !! Js.to_key uid) "access_token").
  pose proof (no_login_unusable cur (record (Logged Info (ProcessingAccount (i + 1))) w))
    as Hu.
  destruct (unusable env cur _) as [[expired | e | ] w1]; cbn [snd] in Hu;
    [| now left ..].
  destruct expired.
  - pose proof (login_and_run_logins steps uid line w1) as Hl.
    destruct (login_and_run env steps uid line w1) as [[[] | e | ] w2];
      cbn [snd] in *; right; (etransitivity; [exact Hl | f_equal; exact Hu]).
  - pose proof (no_login_run_with env steps cur w1) as Hr.
    destruct (run_with env steps cur w1) as [[[] | e | ] w2];
      cbn [snd] in *; left; (etransitivity; [exact Hr | exact Hu]).
Qed.

Lemma turn_logins steps tokenData i line w :
  let w' := snd (turn env steps tokenData i line w) in
  logins (trace w') = logins (trace w)
  ∨ logins (trace w') = login_request line :: logins (trace w).
Proof.
  cbn zeta. unfold turn. destruct (Js.records tokenData) as [records |].
  - apply process_account_logins.
  - left. run_monad. now destruct (extract_user_id line).
Qed.

Lemma for_accounts_logins steps toks data :
  ∀ i w,
    (length (logins (trace (snd (for_accounts env steps toks i data w))))
     ≤ length (logins (trace w)) + length data)%nat.
Proof.
  induction data as [| line data IH]; intros i w; cbn [for_accounts]; [cbn; lia |].
  run_monad.
  pose proof (turn_logins steps toks i line w) as H. cbn zeta in H.
  destruct (turn env steps toks i line w) as [[[] | e | ] w1];
    cbn [snd length] in *.
  - specialize (IH (S i) w1). destruct H as [H | H]; rewrite H in IH; cbn in IH; lia.
  - destruct H as [H | H]; rewrite H; cbn; lia.
  - destruct H as [H | H]; rewrite H; cbn; lia.
Qed.

Lemma main_loop_logins steps toks data cycles :
  ∀ w,
    (length (logins (trace (snd (main_loop env cycles steps toks data w))))
     ≤ length (logins (trace w)) + cycles * length data)%nat.
Proof.
  induction cycles as [| cycles IH]; intros w; cbn [main_loop]; [cbn; lia |].
  run_monad.
  pose proof (for_accounts_logins steps toks data 0 w) as H.
  destruct (for_accounts env steps toks 0 data w) as [[[] | e | ] w1];
    cbn [snd] in *; [| lia ..].
  specialize (IH (record (Waited 86400) w1)).
  change (logins (trace (record (Waited 86400) w1))) with (logins (trace w1)) in IH.
  lia.
Qed.

End Turns.

(** X10.  One turn sends at most one login request, and it is the login
    request of the account's own line. *)
Theorem turn_logs_in_at_most_once {platform : Platform} (env : environment)
    (steps : nat) (toks : gmap string json) (i : nat) (line : string)
    (w : world) :
  let w' := snd (process_account env steps toks i line w) in
  logins (trace w') = logins (trace w)
  ∨ logins (trace w') = login_request line :: logins (trace w).
Proof. apply process_account_logins. Qed.

(** X11.  However the server behaves, a run of [cycles] passes sends at
    most one login request per account line and pass. *)
Theorem main_login_budget {platform : Platform} (env : environment)
    (cycles steps : nat) (text : string) (w : world) :
  (length (logins (trace (snd (main env cycles steps (Some text) w))))
   ≤ length (logins (trace w)) + cycles * length (account_lines text))%nat.
Proof.
  destruct (loadTokens_run w) as (w0 & Hload & _).
  assert (H0 : logins (trace w0) = logins (trace w)).
  { revert Hload. unfold loadTokens.
    destruct (token_file w) as [[| value] |]; now intros [= _ <-]. }
  unfold main. run_monad. rewrite Hload.
  pose proof (main_loop_logins env steps (loaded w) (account_lines text) cycles w0) as H.
  rewrite H0 in H.
  destruct (main_loop env cycles steps (loaded w) (account_lines text) w0)
    as [[[] | e | ] w1]; exact H.
Qed.

Section TurnFootprint.

Context {platform : Platform} (env : environment).

Lemma home_step_in_turn line tok up r :
  home_step_request tok up r → turn_request line r.
Proof.
  intros H. right. exists tok. left.
  destruct r as [[] [] b | [] b]; cbn in *; try easy; now destruct H.
Qed.

Lemma task_step_in_turn line tok r : task_step_request tok r → turn_request line r.
Proof. intros H. right. exists tok. now right. Qed.

Lemma engines_in_turn k line steps t :
  acts (other_records k) (turn_request line)
    (getHomeData env steps t shouldUpgrade;; getTasks env t).
Proof.
  apply acts_bind; [exact _ | | intros _].
  - eapply acts_weaken; [apply same_file_other_records | | apply getHomeData_acts].
    apply home_step_in_turn.
  - eapply acts_weaken; [apply same_file_other_records | | apply getTasks_acts].
    apply task_step_in_turn.
Qed.

Lemma login_and_run_acts steps uid line :
  acts (other_records (Js.to_key uid)) (turn_request line)
    (login_and_run env steps uid line).
Proof.
  unfold login_and_run, logger.warn.
  apply acts_bind; [exact _ | apply acts_log; exact _ | intros _].
  apply acts_bind; [exact _ | | intros v].
  - eapply acts_weaken; [apply same_file_other_records | | apply loginToPinaiAPI_acts].
    intros r <-. now left.
  - destruct v as [t |]; [| apply acts_ret; exact _].
    destruct (Js.truthy (Some t)); [| apply acts_ret; exact _].
    apply acts_bind; [exact _ | | intros _; apply engines_in_turn].
    eapply acts_weaken; [| | apply saveToken_acts]; [auto | intros r []].
Qed.

Lemma run_with_acts k line steps cur :
  acts (other_records k) (turn_request line) (run_with env steps cur).
Proof.
  destruct cur as [t |]; cbn [run_with]; [apply engines_in_turn |].
  apply acts_ret. exact _.
Qed.

Lemma unusable_acts k line cur :
  acts (other_records k) (turn_request line) (unusable env cur).
Proof.
  unfold unusable. destruct cur as [t |]; [| apply acts_ret; exact _].
  destruct (Js.truthy (Some t)); [| apply acts_ret; exact _].
  eapply acts_weaken; [apply same_file_other_records | | apply isExpired_acts].
  intros r [].
Qed.

Lemma acts_lift_val {A B} R Q (a : A) (k : A → M B) :
  acts R Q (k a) → acts R Q (Monad.lift (Val a) ≫= k).
Proof. intros H w. exact (H w). Qed.

Lemma process_account_acts steps toks i line uid :
  extract_user_id line = Val uid →
  acts (other_records (Js.to_key uid)) (turn_request line)
    (process_account env steps toks i line).
Proof.
  intros Hext. unfold process_account. rewrite Hext.
  unfold logger.info, UserInterface.countdown.
  apply acts_lift_val.
  apply acts_bind; [exact _ | apply acts_log; exact _ | intros _].
  apply acts_bind; [exact _ | apply unusable_acts | intros expired].
  apply acts_bind; [exact _ | | intros _; apply acts_wait; exact _].
  destruct expired; [apply login_and_run_acts | apply run_with_acts].
Qed.

Lemma process_account_keeps steps toks i line k w :
  (∀ uid, extract_user_id line = Val uid → Js.to_key uid ≠ k) →
  stored (snd (process_account env steps toks i line w)) !! k = stored w !! k.
Proof.
  intros Hk. destruct (extract_user_id line) as [uid | e] eqn:Hext.
  - destruct (process_account_acts steps toks i line uid Hext w) as [[_ H] _].
    apply H. intros ->. now apply (Hk uid).
  - now rewrite (process_account_throws env steps toks i line w e Hext).
Qed.

Lemma turn_keeps steps tokenData i line k w :
  (∀ uid, extract_user_id line = Val uid → Js.to_key uid ≠ k) →
  stored (snd (turn env steps tokenData i line w)) !! k = stored w !! k.
Proof.
  intros Hk. unfold turn. destruct (Js.records tokenData) as [records |].
  - now apply process_account_keeps.
  - run_monad. now destruct (extract_user_id line).
Qed.

Lemma for_accounts_keeps steps toks k data :
  (∀ line uid, In line data → extract_user_id line = Val uid → Js.to_key uid ≠ k) →
  ∀ i w, stored (snd (for_accounts env steps toks i data w)) !! k = stored w !! k.
Proof.
  induction data as [| line data IH]; intros Hk i w; [reflexivity |].
  cbn [for_accounts]. run_monad.
  pose proof (turn_keeps steps toks i line k w) as H.
  destruct (turn env steps toks i line w) as [[[] | e | ] w1];
    cbn [snd] in *.
  - rewrite IH.
    + apply H. intros uid. apply Hk. now left.
    + intros l uid Hin. apply Hk. now right.
  - apply H. intros uid. apply Hk. now left.
  - apply H. intros uid. apply Hk. now left.
Qed.

Lemma main_loop_keeps steps toks k data cycles :
  (∀ line uid, In line data → extract_user_id line = Val uid → Js.to_key uid ≠ k) →
  ∀ w, stored (snd (main_loop env cycles steps toks data w)) !! k = stored w !! k.
Proof.
  intros Hk. induction cycles as [| cycles IH]; intros w; [reflexivity |].
  cbn [main_loop]. run_monad.
  pose proof (for_accounts_keeps steps toks k data Hk 0 w) as H.
  destruct (for_accounts env steps toks 0 data w) as [[[] | e | ] w1];
    cbn [snd] in *; [| exact H ..].
  rewrite IH. exact H.
Qed.

Lemma main_loop_idle steps toks cycles :
  ∀ w, main_loop env cycles steps toks [] w
       = (OutOfFuel,
          mkWorld (token_file w) (writable w) (idle_passes cycles ++ trace w)).
Proof.
  induction cycles as [| cycles IH]; intros w; [now destruct w |].
  cbn [main_loop for_accounts]. run_monad. rewrite IH.
  cbn [record token_file writable trace].
  do 2 f_equal. unfold idle_passes.
  change (Waited 86400 :: trace w) with ([Waited 86400] ++ trace w)%list.
  rewrite app_assoc. f_equal. symmetry. apply repeat_cons.
Qed.

End TurnFootprint.

(** X12.  The turn of an account whose id can be read changes no record
    of the token file but its own, only adds to the trace, and sends
    nothing but its own login request and the requests of the two
    steps. *)
Theorem process_account_footprint {platform : Platform} (env : environment)
    (steps : nat) (toks : gmap string json) (i : nat) (line : string)
    (uid : option json) :
  extract_user_id line = Val uid →
  acts (other_records (Js.to_key uid)) (turn_request line)
    (process_account env steps toks i line).
Proof. apply process_account_acts. Qed.

Lemma process_account_footprint_witness :
  acts (other_records "7") (turn_request Scenario.line7)
    (process_account (Scenario.service (PNum 0) 3 []) 2 ∅ 0 Scenario.line7).
Proof.
  apply (process_account_footprint (Scenario.service (PNum 0) 3 []) 2 ∅ 0
           Scenario.line7 (Some (JNum 7))).
  reflexivity.
Defined.

(** X13.  A run never changes the record of an account that is not in
    the account list: a key that no line's account id maps to keeps its
    record through any number of passes. *)
Theorem main_keeps_foreign_records {platform : Platform} (env : environment)
    (cycles steps : nat) (text : string) (w : world) (k : string) :
  (∀ line uid,
      In line (account_lines text) →
      extract_user_id line = Val uid → Js.to_key uid ≠ k) →
  stored (snd (main env cycles steps (Some text) w)) !! k = stored w !! k.
Proof.
  intros Hk. destruct (loadTokens_run w) as (w0 & Hload & Hfile & _).
  unfold main. run_monad. rewrite Hload.
  pose proof (main_loop_keeps env steps (loaded w) k (account_lines text) cycles Hk w0)
    as H.
  assert (H0 : stored w0 = stored w) by (unfold stored, loaded; now rewrite Hfile).
  rewrite H0 in H.
  destruct (main_loop env cycles steps (loaded w) (account_lines text) w0)
    as [[[] | e | ] w1]; exact H.
Qed.

Lemma main_keeps_foreign_records_witness :
  let w := mkWorld (Some (Document (JObj [("8", token_record Scenario.token)]))) true [] in
  stored (snd (main (Scenario.service (PNum 0) 0 []) 2 0 (Some Scenario.line7) w)) !! "8"
  = stored w !! "8".
Proof.
  intros w.
  apply (main_keeps_foreign_records (Scenario.service (PNum 0) 0 []) 2 0
           Scenario.line7 w "8").
  intros line uid [<- | []] [= <-]. discriminate.
Defined.

(** X14.  With an account list that has no line, the run sends nothing
    and never exits: each pass is the day-long pause alone. *)
Theorem main_idle_without_accounts {platform : Platform} (env : environment)
    (cycles steps : nat) (text : string) (w : world) :
  account_lines text = [] →
  let w0 := snd (loadTokens w) in
  main env cycles steps (Some text) w
  = (Running,
     mkWorld (token_file w0) (writable w0) (idle_passes cycles ++ trace w0)).
Proof.
  intros Hlines. cbn zeta.
  destruct (loadTokens_run w) as (w0 & Hload & _).
  unfold main. run_monad. rewrite Hload, Hlines, main_loop_idle. reflexivity.
Qed.

Lemma main_idle_without_accounts_witness :
  main Scenario.offline 3 0 (Some (Scenario.newline ++ Scenario.newline)) Scenario.start
  = (Running, mkWorld None true [Waited 86400; Waited 86400; Waited 86400]).
Proof.
  apply (main_idle_without_accounts Scenario.offline 3 0
           (Scenario.newline ++ Scenario.newline) Scenario.start).
  reflexivity.
Defined.
(** ** More on the credential store *)

(** X15.  Saving the tokens of two accounts with different keys gives
    the same stored mapping in either order, whatever the token file
    holds and whether or not it can be written.  (The order of the
    members in the file may differ.) *)
Theorem saves_of_two_accounts_commute (u1 u2 : option json) (t1 t2 : json)
    (w : world) :
  Js.to_key u1 ≠ Js.to_key u2 →
  stored (snd (saveToken u2 t2 (snd (saveToken u1 t1 w))))
  = stored (snd (saveToken u1 t1 (snd (saveToken u2 t2 w)))).
Proof.
  intros Hne. unfold stored. rewrite !saveToken_loaded, !saveToken_writable.
  destruct (writable w); [| reflexivity].
  set (k1 := Js.to_key u1) in *. set (k2 := Js.to_key u2) in *.
  assert (H12 : String.eqb k1 k2 = false) by now apply String.eqb_neq.
  assert (H21 : String.eqb k2 k1 = false) by (apply String.eqb_neq; congruence).
  destruct (loaded w) as [| b | n | s | items | o]; unfold Js.assign.
  - reflexivity.
  - destruct (String.eqb k1 "__proto__") eqn:E1, (String.eqb k2 "__proto__") eqn:E2;
      rewrite ?E1, ?E2; reflexivity.
  - destruct (String.eqb k1 "__proto__") eqn:E1, (String.eqb k2 "__proto__") eqn:E2;
      rewrite ?E1, ?E2; reflexivity.
  - destruct (String.eqb k1 "__proto__") eqn:E1, (String.eqb k2 "__proto__") eqn:E2;
      rewrite ?E1, ?E2; reflexivity.
  - destruct (Js.array_index k1) eqn:I1, (Js.array_index k2) eqn:I2,
      (String.eqb k1 "length") eqn:E1, (String.eqb k2 "length") eqn:E2;
      rewrite ?I1, ?I2, ?E1, ?E2; reflexivity.
  - destruct (String.eqb k1 "__proto__" && negb (Js.has_own k1 o)) eqn:C1,
      (String.eqb k2 "__proto__" && negb (Js.has_own k2 o)) eqn:C2;
      rewrite ?has_own_define, ?H12, ?H21; cbn [orb]; rewrite ?C1, ?C2;
      cbn [members_of]; rewrite ?mapping_define; try reflexivity.
    apply insert_insert_ne. congruence.
Qed.

Lemma saves_of_two_accounts_commute_witness :
  let u1 := Some (JNum 5000000000) in
  let u2 := Some (JNum 7) in
  stored (snd (saveToken u2 Scenario.token_exp_zero
                 (snd (saveToken u1 Scenario.token Scenario.start))))
  = stored (snd (saveToken u1 Scenario.token
                   (snd (saveToken u2 Scenario.token_exp_zero Scenario.start)))).
Proof.
  intros u1 u2.
  apply (saves_of_two_accounts_commute u1 u2 Scenario.token Scenario.token_exp_zero
           Scenario.start).
  discriminate.
Defined.

(** The files are another matter: ids from [2^32 - 1] on are no array
    indices, and their records stand in the order of the saves. *)
Example saves_in_either_order_differ_in_the_file :
  let a := Some (JNum 5000000000) in
  let b := Some (JNum 6000000000) in
  let file first second :=
    token_file (snd (saveToken second Scenario.token
                       (snd (saveToken first Scenario.token Scenario.start)))) in
  file a b = Some (Document (JObj [("5000000000", token_record Scenario.token);
                                   ("6000000000", token_record Scenario.token)]))
  ∧ file b a = Some (Document (JObj [("6000000000", token_record Scenario.token);
                                     ("5000000000", token_record Scenario.token)])).
Proof. split; vm_compute; reflexivity. Qed.

(** X16.  A second save for the same account leaves no trace of the
    first: the token file is the one the second save alone would have
    written. *)
Theorem second_save_replaces_first (u : option json) (t1 t2 : json) (w : world) :
  writable w = true →
  token_file (snd (saveToken u t2 (snd (saveToken u t1 w))))
  = token_file (snd (saveToken u t2 w)).
Proof.
  intros Hw.
  rewrite (saveToken_file u t2 (snd (saveToken u t1 w))).
  rewrite saveToken_loaded, saveToken_writable, (saveToken_file u t1 w),
    (saveToken_file u t2 w), Hw.
  destruct (Js.assign (loaded w) (Js.to_key u) (token_record t1)) as [t | e] eqn:Ha.
  - destruct (assign_defined _ _ _ (token_record (Js.normal t1)) _ Ha) as [t' Ha'].
    rewrite Ha', (assign_assign _ _ _ (token_record t2) _ Ha').
    destruct (assign_defined _ _ _ (token_record t2) _ Ha) as [t'' ->]. reflexivity.
  - now rewrite (assign_throws _ _ _ (token_record (Js.normal t1)) _ Ha).
Qed.

Lemma second_save_replaces_first_witness :
  token_file (snd (saveToken (Some (JNum 7)) Scenario.token
                     (snd (saveToken (Some (JNum 7)) Scenario.token_exp_zero
                             Scenario.start))))
  = token_file (snd (saveToken (Some (JNum 7)) Scenario.token Scenario.start)).
Proof.
  apply (second_save_replaces_first (Some (JNum 7)) Scenario.token_exp_zero
           Scenario.token Scenario.start).
  reflexivity.
Defined.





Lemma truthy_normal tok : Js.truthy (Some (Js.normal tok)) = Js.truthy (Some tok).
Proof. now destruct tok. Qed.

(** The expiry check looks at a token only when it is a string. *)
Lemma isExpired_normal {platform : Platform} (env : environment) tok :
  isExpired env (Js.normal tok) = isExpired env tok.
Proof. now destruct tok. Qed.

(** X19.  A token saved in one run is the token the next run uses: when
    the save reached the file (a disk that can be written, a token file
    that is missing, unparsable or holds an object, a key other than
    [__proto__]), then on a world whose token file is the one the save
    wrote, with the tokens loaded from it, the account's turn sends no
    login request as long as the token is not expired. *)
Theorem saved_token_is_reused_after_restart {platform : Platform}
    (env : environment) (steps i : nat) (uid : option json) (tok : json)
    (line : string) (w w2 : world) :
  writable w = true →
  object_store w →
  Js.to_key uid ≠ "__proto__" →
  Js.truthy (Some tok) = true →
  extract_user_id line = Val uid →
  token_file w2 = token_file (snd (saveToken uid tok w)) →
  fst (isExpired env tok (record (Logged Info (ProcessingAccount (i + 1))) w2))
    = Done false →
  logins (trace (snd (turn env steps (loaded w2) i line w2)))
  = logins (trace w2).
Proof.
  intros Hw Hobj Hkey Htruthy Hext Hfile Hexp.
  assert (Hloaded : loaded w2 = loaded (snd (saveToken uid tok w)))
    by (unfold loaded; now rewrite Hfile).
  assert (Hstored : stored w2 = stored (snd (saveToken uid tok w)))
    by (unfold stored; now rewrite Hloaded).
  assert (Hobj2 : object_store w2).
  { unfold object_store. rewrite Hloaded. now apply saveToken_object_store. }
  rewrite (turn_records env steps (loaded w2) (stored w2) i line)
    by now apply object_store_records.
  apply (process_account_reuses env steps (stored w2) i line uid w2 (Js.normal tok)).
  - assumption.
  - rewrite Hstored, saveToken_stored by assumption.
    now rewrite lookup_insert_eq.
  - now rewrite truthy_normal.
  - now rewrite isExpired_normal.
Qed.

Lemma saved_token_is_reused_after_restart_witness :
  let env := Scenario.service (PNum 0) 0 [] in
  let w2 := mkWorld (token_file (snd (saveToken (Some (JNum 7)) Scenario.token
                                         Scenario.start))) true [] in
  logins (trace (snd (turn env 0 (loaded w2) 0 Scenario.line7 w2)))
  = logins (trace w2).
Proof.
  intros env w2.
  apply (saved_token_is_reused_after_restart env 0 0 (Some (JNum 7)) Scenario.token
           Scenario.line7 Scenario.start w2);
    first [reflexivity | exact I | discriminate].
Defined.

(** X20.  Account ids that are different numbers have different keys in
    the token file, so their records never collide. *)
Theorem numeric_ids_have_distinct_keys (a b : Z) :
  Js.to_key (Some (JNum a)) = Js.to_key (Some (JNum b)) → a = b.
Proof.
  cbn. unfold Js.decimal. intros H.
  assert (Hnil : ∀ n, Z.to_int n ≠ Decimal.Pos Decimal.Nil
                      ∧ Z.to_int n ≠ Decimal.Neg Decimal.Nil).
  { intros [| p | p]; split; try discriminate; intros [= E];
      now apply DecimalPos.Unsigned.to_uint_nonnil in E. }
  apply (f_equal NilZero.int_of_string) in H.
  rewrite !NilZero.isi in H by apply Hnil.
  injection H as H. now apply DecimalZ.to_int_inj.
Qed.

Lemma numeric_ids_have_distinct_keys_witness : 7 = 7.
Proof. apply (numeric_ids_have_distinct_keys 7 7). reflexivity. Defined.

(** ** Completing a task, claiming coins *)

(** X21.  [completeTask] never throws and sends its request exactly once;
    the success message is logged exactly when the reply has status 200
    and says "success", and then it is the only line logged at that
    level. *)
Theorem completeTask_reports (env : environment) (tok : json) (taskId : Z)
    (msg : task_message) (w : world) :
  let run := completeTask env tok taskId msg w in
  fst run = Done tt
  ∧ requests (trace (snd run)) = complete_request tok taskId :: requests (trace w)
  ∧ logged Info (trace (snd run))
    = ((if reports_success (net env (trace w) (complete_request tok taskId))
        then [TaskDone msg] else []) ++ logged Info (trace w))%list.
Proof.
  cbn zeta. unfold completeTask, complete_request, reports_success,
    ApiService.post, ApiService.exchange.
  run_monad.
  destruct (net env (trace w) _) as [| st d]; [now repeat split |].
  destruct (st =? 200); [| now repeat split].
  destruct (Body.status d) as [[s |] | e]; cbn; [| now repeat split ..].
  destruct (String.eqb s "success"); now repeat split.
Qed.

Section Claims.

Context (env : environment).

Lemma collect_loop_budget tok ty :
  decreasing env →
  ∀ steps count w,
    (length (requests (trace (snd (collect_loop env steps tok ty count w))))
     ≤ length (requests (trace w)) + Z.to_nat count)%nat.
Proof.
  intros Hdec. induction steps as [| steps IH]; intros count w.
  - destruct (Z_lt_le_dec 0 count).
    + rewrite collect_loop_exhausted by assumption. cbn. lia.
    + rewrite collect_loop_idle by assumption. cbn. lia.
  - destruct (Z_lt_le_dec 0 count) as [Hpos | Hnon].
    2: { rewrite collect_loop_idle by assumption. cbn. lia. }
    rewrite collect_loop_step by assumption. cbn zeta.
    destruct (net env (trace w) _) as [| st d] eqn:Hnet; [cbn; lia |].
    destruct (st =? 200) eqn:Hst; [| cbn; lia].
    apply Z.eqb_eq in Hst. subst st.
    destruct (reported d) as [c |] eqn:Hrep; [| cbn; lia].
    pose proof (Hdec _ _ _ _ _ _ Hnet Hrep) as Hlt.
    destruct (c =? 0); [cbn; lia |].
    etransitivity; [apply IH |]. cbn. lia.
Qed.

End Claims.

(** X22.  Against a server whose claim replies always report fewer
    coins than were claimed, [collectCoins] sends at most as many claim
    requests as the coin count it starts from. *)
Theorem collectCoins_request_budget (env : environment) (steps : nat)
    (tok : json) (c : coin) (w : world) :
  decreasing env →
  (length (requests (trace (snd (collectCoins env steps tok c w))))
   ≤ length (requests (trace w)) + Z.to_nat (coin_count c))%nat.
Proof.
  intros Hdec.
  pose proof (collect_loop_budget env tok (coin_type c) Hdec steps (coin_count c) w) as H.
  unfold collectCoins. run_monad.
  destruct (collect_loop env steps tok (coin_type c) (coin_count c) w)
    as [[[] | e | ] w1]; exact H.
Qed.

Lemma collectCoins_request_budget_witness :
  (length (requests (trace (snd (collectCoins Scenario.melting 9 Scenario.token
                                   (Scenario.telegram 3) Scenario.start))))
   ≤ length (requests (trace Scenario.start)) + Z.to_nat 3)%nat.
Proof.
  apply (collectCoins_request_budget Scenario.melting 9 Scenario.token
           (Scenario.telegram 3) Scenario.start).
  exact melting_decreasing.
Defined.

(** X23.  A claim answered with a success status other than 200 (201 to
    299: what axios hands over as a response and not as an error) ends
    the loop after that one request, and "All coins collected" is logged
    although the coins are still there. *)
Theorem collectCoins_refused (env : environment) (steps : nat) (tok : json)
    (c : coin) (w : world) (st : Z) (d : body) :
  0 < coin_count c →
  net env (trace w) (claim_request tok (coin_type c) (coin_count c))
    = Response st d →
  200 < st < 300 →
  collectCoins env (S steps) tok c w
  = (Done tt,
     record (Logged Info AllCoinsCollected)
       (record (Sent (claim_request tok (coin_type c) (coin_count c))) w)).
Proof.
  intros Hpos Hnet Hst. unfold collectCoins.
  erewrite try_done; [reflexivity |].
  erewrite bind_done; [reflexivity |].
  rewrite collect_loop_step by assumption. cbn zeta. rewrite Hnet.
  now replace (st =? 200) with false by (symmetry; apply Z.eqb_neq; lia).
Qed.

Lemma collectCoins_refused_witness :
  let env := {| net := fun _ _ => Response 204 NoData; clock := Scenario.at_noon |} in
  collectCoins env 1 Scenario.token (Scenario.telegram 3) Scenario.start
  = (Done tt,
     record (Logged Info AllCoinsCollected)
       (record (Sent (claim_request Scenario.token "Telegram" 3)) Scenario.start)).
Proof.
  intros env.
  apply (collectCoins_refused env 0 Scenario.token (Scenario.telegram 3)
           Scenario.start 204 NoData); [reflexivity | reflexivity | lia].
Defined.

(** ** The point-balance parser without commas *)

(** X24.  On a string without a comma the parser is the one that strips
    commas first and then looks for the suffix: the two differ only when
    a comma is present. *)
Theorem parsePoints_agrees_without_comma (s : string) :
  JsString.includes "," s = false →
  PointsCalculator.parsePoints (PStr s) = strip_then_suffix (PStr s).
Proof.
  intros H. unfold PointsCalculator.parsePoints, strip_then_suffix.
  rewrite (remove_all_absent "," s); [reflexivity |].
  intros Hin. apply includes_char_in in Hin. congruence.
Qed.

Lemma parsePoints_agrees_without_comma_witness :
  PointsCalculator.parsePoints (PStr "12.5K") = strip_then_suffix (PStr "12.5K").
Proof.
  apply (parsePoints_agrees_without_comma "12.5K"). reflexivity.
Defined.

(** ** The countdown display *)

Section FormatTime.
Import Display.

Lemma below_hundred (P : Z → bool) :
  forallb P (List.map Z.of_nat (seq 0 100)) = true →
  ∀ n, 0 ≤ n < 100 → P n = true.
Proof.
  intros H n Hn. rewrite forallb_forall in H. apply H.
  apply in_map_iff. exists (Z.to_nat n). split; [lia |].
  apply in_seq. lia.
Qed.

Lemma padStart_two_digits n :
  0 ≤ n < 100 → padStart 2 "0" (Js.decimal n) = two_digit_display n.
Proof.
  intros Hn.
  apply (below_hundred
           (fun n => String.eqb (padStart 2 "0" (Js.decimal n)) (two_digit_display n)))
    in Hn; [now apply String.eqb_eq in Hn | vm_compute; reflexivity].
Qed.

Lemma two_digits_display n :
  0 ≤ n < 100 → two_digits (digit (n / 10)) (digit (n mod 10)) = Some n.
Proof.
  intros Hn.
  apply (below_hundred
           (fun n => match two_digits (digit (n / 10)) (digit (n mod 10)) with
                     | Some m => m =? n
                     | None => false
                     end)) in Hn; [| vm_compute; reflexivity].
  destruct (two_digits _ _) as [m |]; [| discriminate].
  now apply Z.eqb_eq in Hn as ->.
Qed.

End FormatTime.

(** X25.  Below a hundred hours the display is [HH:MM:SS], eight
    characters, and reading it back gives the seconds it was made from:
    different remaining times are never shown alike. *)
Theorem formatTime_reads_back (t : Z) :
  0 ≤ t < 360000 →
  String.length (Display.formatTime t) = 8%nat
  ∧ Display.readTime (Display.formatTime t) = Some t.
Proof.
  intros Ht. unfold Display.formatTime.
  rewrite !Z.rem_mod_nonneg by lia.
  pose proof (Z.mod_pos_bound t 3600 eq_refl) as Hr.
  pose proof (Z.mod_pos_bound t 60 eq_refl) as Hs60.
  assert (Hh : 0 ≤ t / 3600 < 100)
    by (split; [apply Z.div_pos; lia | apply Z.div_lt_upper_bound; lia]).
  assert (Hm : 0 ≤ t mod 3600 / 60 < 100)
    by (split; [apply Z.div_pos; lia | apply Z.div_lt_upper_bound; lia]).
  assert (Hs : 0 ≤ t mod 60 < 100) by lia.
  rewrite (padStart_two_digits _ Hh), (padStart_two_digits _ Hm),
    (padStart_two_digits _ Hs).
  split; [reflexivity |].
  unfold Display.two_digit_display. cbn [Js.join].
  rewrite !string_app_cons, !string_app_nil_l. cbn [Display.readTime].
  change ((":" =? ":")%char) with true. cbn [andb].
  rewrite (two_digits_display _ Hh), (two_digits_display _ Hm),
    (two_digits_display _ Hs).
  f_equal. clear Hh Hm Hs Hr Hs60. Z.div_mod_to_equations. lia.
Qed.

Lemma formatTime_reads_back_witness :
  String.length (Display.formatTime 86400) = 8%nat
  ∧ Display.readTime (Display.formatTime 86400) = Some 86400.
Proof. apply (formatTime_reads_back 86400). lia. Defined.

Example formatTime_day : Display.formatTime 86400 = "24:00:00".
Proof. reflexivity. Qed.

Example formatTime_three : Display.formatTime 3 = "00:00:03".
Proof. reflexivity. Qed.

(** ** The home step without coins to claim *)

(** X26.  A home state without a "Telegram" coin, or with a count that is
    not positive, is no error: the home step logs the state, sends no
    claim and goes on to the upgrade check. *)
Theorem getHomeData_without_coins (env : environment) (steps : nat) (tok : json)
    (w : world) (h : home) (m : model) (cs : list coin) :
  net env (trace w) (Get Home (ApiService.bearer (Some tok)))
    = Response 200 (HomeBody h) →
  current_model h = Some m →
  coins h = Some cs →
  (∀ c, List.find is_telegram cs = Some c → coin_count c ≤ 0) →
  getHomeData env steps tok true w
  = checkAndUpgradeModel env tok (pin_points h) (current_level m)
      (record (Logged Info (Balance (pin_points h)))
         (record (Logged Info (DataPower (data_power h)))
            (record (Logged Info (CurrentLevel (current_level m)))
               (record (Logged Info (CurrentModel (name m)))
                  (record (Sent (Get Home (ApiService.bearer (Some tok)))) w))))).
Proof.
  intros Hnet Hm Hcs Hnone.
  unfold getHomeData, ApiService.get, ApiService.exchange, logHomeData. run_monad.
  rewrite Hnet. cbn [Z.eqb Pos.eqb Body.destructure_home]. rewrite Hm, Hcs.
  assert (Hskip : ∀ w1,
             match List.find is_telegram cs with
             | Some coinToCollect =>
                 if 0 <? coin_count coinToCollect
                 then collectCoins env steps tok coinToCollect
                 else λ w : world, (Done (), w)
             | None => λ w : world, (Done (), w)
             end w1 = (Done tt, w1)).
  { intros w1. destruct (List.find is_telegram cs) as [c |]; [| reflexivity].
    specialize (Hnone c eq_refl).
    now replace (0 <? coin_count c) with false by (symmetry; apply Z.ltb_ge; lia). }
  rewrite Hskip.
  match goal with |- context [checkAndUpgradeModel env tok ?p ?l ?w1] =>
    pose proof (checkAndUpgradeModel_safe env tok p l w1) as Hup;
    destruct (checkAndUpgradeModel env tok p l w1) as [[[] | e | ] w2]
  end; try reflexivity.
  now elim (Hup e).
Qed.

Lemma getHomeData_without_coins_witness :
  let env := Scenario.service (PNum 0) 0 [] in
  requests (trace (snd (getHomeData env 0 Scenario.token true Scenario.start)))
  = [cost_request Scenario.token; Get Home (Some Scenario.token)].
Proof.
  intros env.
  rewrite (getHomeData_without_coins env 0 Scenario.token Scenario.start
             (Scenario.home_state (PNum 0) 0)
             {| name := "Nano"; current_level := 1 |} [Scenario.telegram 0]);
    try reflexivity.
  intros c [= <-]. cbn. lia.
Defined.

(** ** Expiry by the clock, reuse of a cached token *)

(** X27.  For claims with a numeric [exp] other than 0 the check is the
    comparison with the clock: the token is expired exactly when the
    clock reading is past [exp]; the expiry time is logged and nothing
    else happens. *)
Theorem isExpired_decides_by_clock {platform : Platform} (env : environment)
    (token : json) (w : world) (members : list (string * json)) (e : Z) :
  decode_claims token = Val (JObj members) →
  Js.last_member "exp" members = Some (JNum e) →
  e ≠ 0 →
  isExpired env token w
  = (Done (e <? clock env (trace w)), record (Logged Info (TokenExpiresAt e)) w)
  ∧ (fst (isExpired env token w) = Done true ↔ e < clock env (trace w)).
Proof.
  intros Hd Hexp Hne. rewrite (isExpired_claim env token w members e) by assumption.
  split; [reflexivity |]. cbn [fst]. split.
  - intros [= H]. now apply Z.ltb_lt.
  - intros H. f_equal. now apply Z.ltb_lt.
Qed.

Lemma isExpired_decides_by_clock_witness :
  let env := Scenario.offline in
  isExpired env Scenario.token_exp_2023 Scenario.start
  = (Done (1700000000 <? clock env (trace Scenario.start)),
     record (Logged Info (TokenExpiresAt 1700000000)) Scenario.start)
  ∧ (fst (isExpired env Scenario.token_exp_2023 Scenario.start) = Done true
     ↔ 1700000000 < clock env (trace Scenario.start)).
Proof.
  intros env.
  apply (isExpired_decides_by_clock env Scenario.token_exp_2023 Scenario.start
           [("exp", JNum 1700000000)] 1700000000);
    [reflexivity | reflexivity | discriminate].
Defined.

(** X28.  An account whose record in the mapping loaded at startup holds
    a truthy token that is not expired goes through its turn without a
    login request. *)
Theorem cached_token_avoids_login {platform : Platform} (env : environment)
    (steps : nat) (tokenData : gmap string json) (i : nat) (line : string)
    (uid : option json) (w : world) (t : json) :
  extract_user_id line = Val uid →
  Js.get_opt (tokenData !! Js.to_key uid) "access_token" = Some t →
  Js.truthy (Some t) = true →
  fst (isExpired env t (record (Logged Info (ProcessingAccount (i + 1))) w))
    = Done false →
  logins (trace (snd (process_account env steps tokenData i line w)))
  = logins (trace w).
Proof. apply process_account_reuses. Qed.

Lemma cached_token_avoids_login_witness :
  let env := Scenario.service (PNum 0) 2 [Scenario.plain_task 7 false] in
  let toks : gmap string json := {[ "7" := token_record Scenario.token ]} in
  logins (trace (snd (process_account env 3 toks 0 Scenario.line7 Scenario.start)))
  = logins (trace Scenario.start).
Proof.
  intros env toks.
  apply (cached_token_avoids_login env 3 toks 0 Scenario.line7 (Some (JNum 7))
           Scenario.start Scenario.token); reflexivity.
Defined.

(** ** Strings and numbers on concrete inputs *)

Module Examples.
Import JsString JsNumber PointsCalculator.

Example split_user :
  split "user=" "query_id=A&user=%7B%7D&hash=f" = ["query_id=A&"; "%7B%7D&hash=f"].
Proof. reflexivity. Qed.

Example split_none : split "user=" "query_id=A" = ["query_id=A"].
Proof. reflexivity. Qed.

Example parseFloat_prefix : parseFloat "1,200" = 1%float.
Proof. reflexivity. Qed.

Example parseFloat_nan : PrimFloat.is_nan (parseFloat "abc") = true.
Proof. reflexivity. Qed.

Example parse_1200 : parsePoints (PStr "1,200") = Val 1200%float.
Proof. reflexivity. Qed.

Example parse_5K : parsePoints (PStr "5K") = Val 5000%float.
Proof. reflexivity. Qed.

Example parse_2_3M : parsePoints (PStr "2.3M") = Val 2300000%float.
Proof. reflexivity. Qed.

Example parse_12_5K : parsePoints (PStr "12.5K") = Val 12500%float.
Proof. reflexivity. Qed.

Example parse_3M : parsePoints (PStr "3M") = Val 3000000%float.
Proof. reflexivity. Qed.

End Examples.
